(** * TensorView: shape alignment for elementwise tensor operations

    A shallow embedding of [Source/Math/TensorView.cpp] (CNTK): the
    reshaping constructor of [TensorView] and the shape massaging done by
    [TensorView::DoBinaryOpOf] (padding, operation shape, compatibility
    check, flattening, singleton removal, broadcast strides).

    Conventions.
    - [size_t] values (extents, matrix dimensions) are [N]; where the source
      multiplies two of them the wrap-around at [2^64] is written out.
    - [ptrdiff_t] strides are [Z].
    - ranks and loop indices are [nat] (they index lists).
    - [LogicError] and [InvalidArgument] throw; a computation that can throw
      returns an [outcome].
    - [fprintf (stderr, ...)] appends one structured line to a trace. *)

From Stdlib Require Import NArith ZArith Lia List Permutation.
From stdpp Require Import base list.

Set Default Proof Using "Type".

(** ** Machine arithmetic *)

Module SizeT.

(** [size_t] is 64 bits wide on the platforms CNTK builds for. *)
Definition modulus : N := (2 ^ 64)%N.

(** [x * y] on two [size_t] values. *)
Definition mul (x y : N) : N := ((x * y) mod modulus)%N.

End SizeT.

(** ** TensorShape

    [TensorShape] is declared in [TensorShape.h], which is not part of the
    sources at hand.  Its operations are modelled from the specification
    (section 3 "Shape" and section 4.1 "Shape operations"), and from the way
    [TensorView.cpp] calls them. *)

(** Modelled from the spec: the [TensorShape] value type, "an ordered
    sequence of per-axis extents (and, after stride derivation, per-axis
    strides)". *)
Record TensorShape : Type := mkTensorShape {
  m_dims : list N;
  m_strides : list Z
}.

(** Modelled from the spec: strides of a densely stored shape.  The first
    axis is the finest one; "the coarser axis's stride equals the finer
    axis's stride times the finer axis's extent". *)
Fixpoint denseStrides (stride : Z) (dims : list N) : list Z :=
  match dims with
  | [] => []
  | d :: rest => stride :: denseStrides (stride * Z.of_N d) rest
  end.

(** Modelled from the spec: [TensorShape(dims)], a shape "created from a
    literal list of extents". *)
Definition TensorShapeOf (dims : list N) : TensorShape :=
  {| m_dims := dims; m_strides := denseStrides 1 dims |}.

Definition GetNumDims (s : TensorShape) : nat := length (m_dims s).
Definition GetDims (s : TensorShape) : list N := m_dims s.

(** [s[k]]; the callers never index past the rank. *)
Definition dimAt (s : TensorShape) (k : nat) : N := nth k (m_dims s) 0%N.
Definition strideAt (s : TensorShape) (k : nat) : Z := nth k (m_strides s) 0%Z.

(** The stride a further axis appended to [s] would have in a dense layout. *)
Definition nextStride (s : TensorShape) : Z :=
  match GetNumDims s with
  | O => 1%Z
  | S k => (strideAt s k * Z.of_N (dimAt s k))%Z
  end.

(** Modelled from the spec: [Pad(numDims)] "appends unit (extent = 1) axes at
    the high-index end until [dims.length == targetRank].  Never reduces
    rank."  The spec leaves the strides of the appended axes open; here they
    continue the layout of the last declared axis. *)
Definition Pad (s : TensorShape) (numDims : nat) : TensorShape :=
  let extra := numDims - GetNumDims s in
  {| m_dims := m_dims s ++ replicate extra 1%N;
     m_strides := m_strides s ++ replicate extra (nextStride s) |}.

(** Modelled from the spec: [CanFlatten(k)], "the storage layout is
    contiguous across those two axes (the coarser axis's stride equals the
    finer axis's stride times the finer axis's extent)", for axes [k-1] and
    [k]. *)
Definition CanFlatten (s : TensorShape) (k : nat) : bool :=
  (strideAt s k =? strideAt s (k - 1) * Z.of_N (dimAt s (k - 1)))%Z.

(** Modelled from the spec: [Flatten(k)] merges axis [k-1] into axis [k]:
    "extent = product, stride = the finer axis's stride".  Extents are
    [size_t] values (the caller compares them with, and assigns them to, the
    [vector<size_t> opDims]), so the product is the [size_t] product.  The
    caller keeps indexing all [dims] axes after a merge, so the rank is
    unchanged: axis [k-1] stays behind as a unit axis, to be removed by
    [DropSingletonDims]. *)
Definition Flatten (s : TensorShape) (k : nat) : TensorShape :=
  {| m_dims := <[k := SizeT.mul (dimAt s k) (dimAt s (k - 1))]>
                 (<[k - 1 := 1%N]> (m_dims s));
     m_strides := <[k := strideAt s (k - 1)]> (m_strides s) |}.

(** The entries of [l] whose flag in [toDrop] is not set. *)
Fixpoint dropMasked {A : Type} (toDrop : list bool) (l : list A) : list A :=
  match toDrop, l with
  | b :: toDrop', x :: l' =>
      if b then dropMasked toDrop' l' else x :: dropMasked toDrop' l'
  | _, _ => l
  end.

(** Modelled from the spec: [DropSingletonDims(toDrop)], the flagged axes
    are "removed". *)
Definition DropSingletonDims (s : TensorShape) (toDrop : list bool) : TensorShape :=
  {| m_dims := dropMasked toDrop (m_dims s);
     m_strides := dropMasked toDrop (m_strides s) |}.

(** Modelled from the spec: [WithBroadcastStrides()], "for any remaining axis
    with extent 1 [...] force that participant's stride at that axis to 0.
    Axes with extent > 1 retain their physically derived stride." *)
Definition WithBroadcastStrides (s : TensorShape) : TensorShape :=
  {| m_dims := m_dims s;
     m_strides := zip_with (fun d st => if (d =? 1)%N then 0%Z else st)
                           (m_dims s) (m_strides s) |}.

(** ** Storage objects, views, exceptions *)

(** The storage object ([Matrix<ElemType>]) is external; a view only ever
    reads its two physical extents.  [sob_addr] stands for the address the
    view's [m_sob] pointer holds. *)
Record Matrix : Type := mkMatrix {
  sob_addr : positive;
  GetNumRows : N;
  GetNumCols : N
}.

Record TensorView : Type := mkTensorView {
  m_sob : Matrix;
  m_shape : TensorShape
}.

Definition GetShape (v : TensorView) : TensorShape := m_shape v.

(** The two exceptions of the file, with the arguments of their messages
    (before formatting). *)
Inductive exception : Type :=
  | LogicError (shape : TensorShape) (numRows numCols : N)
  | InvalidArgument (k : nat) (dim : N) (shape : TensorShape) (opDims : list N).

Inductive outcome (A : Type) : Type :=
  | Ret (a : A)
  | Throw (e : exception).
Arguments Ret {A} a.
Arguments Throw {A} e.

(** ** Construction *)

(** [TensorView(Matrix & sob)]: cast a matrix as a view. *)
Definition TensorView_cast (sob : Matrix) : TensorView :=
  {| m_sob := sob; m_shape := TensorShapeOf [GetNumRows sob; GetNumCols sob] |}.

(** First loop of the reshaping constructor:
    [for (i = 0; i < m_shape.size() && rowDim < numRows; i++) rowDim *= m_shape[i];]
    Returns [rowDim] and the extents from position [i] on. *)
Fixpoint rowLoop (numRows rowDim : N) (dims : list N) : N * list N :=
  match dims with
  | [] => (rowDim, [])
  | d :: rest =>
      if (rowDim <? numRows)%N
      then rowLoop numRows (SizeT.mul rowDim d) rest
      else (rowDim, dims)
  end.

(** Second loop: [for (; i < m_shape.size(); i++) colDim *= m_shape[i];] *)
Definition colLoop (dims : list N) : N := fold_left SizeT.mul dims 1%N.

(** [TensorView(const TensorView & other, const TensorShape & shape)]:
    reshape a view. *)
Definition TensorView_reshape (other : TensorView) (shape : TensorShape)
  : outcome TensorView :=
  let sob := m_sob other in
  let '(rowDim, rest) := rowLoop (GetNumRows sob) 1%N (m_dims shape) in
  let colDim := colLoop rest in
  if negb (rowDim =? GetNumRows sob)%N || negb (colDim =? GetNumCols sob)%N
  then Throw (LogicError shape (GetNumRows sob) (GetNumCols sob))
  else Ret {| m_sob := sob; m_shape := shape |}.

(** Modelled from the spec: [TensorView(Matrix & sob, const TensorShape &)],
    declared in [TensorView.h]; a view is created "by reinterpreting an
    existing View with a new Shape (same storage, new factorization,
    re-validated)". *)
Definition TensorView_over (sob : Matrix) (shape : TensorShape) : outcome TensorView :=
  TensorView_reshape (TensorView_cast sob) shape.

(** ** Elementwise operations *)

(** [static bool Matches(size_t d1, size_t d2)]: do two dimensions match? *)
Definition Matches (d1 d2 : N) : bool :=
  (d1 =? 1)%N || (d2 =? 1)%N || (d1 =? d2)%N.

(** The blocks of [DoBinaryOpOf] that work on the local array [shapes] and
    the local vector [opDims].  The source fixes [N = 3] by a macro ("later
    make this a template parameter"); every loop over [i < N] is a traversal
    of the list of participants. *)

(** [size_t dims = 0; for (i...) if (dims < shapes[i].GetNumDims()) dims = shapes[i].GetNumDims();] *)
Definition maxNumDims (shapes : list TensorShape) : nat :=
  fold_left (fun dims s => if dims <? GetNumDims s then GetNumDims s else dims)
            shapes 0.

(** [for (i...) shapes[i] = shapes[i].Pad(dims);] *)
Definition padAll (dims : nat) (shapes : list TensorShape) : list TensorShape :=
  map (fun s => Pad s dims) shapes.

(** [opDims[k]] after the inner loop
    [for (i...) opDims[k] = max(opDims[k], shapes[i][k]);] started from 0. *)
Definition opDimAt (shapes : list TensorShape) (k : nat) : N :=
  fold_left (fun m s => N.max m (dimAt s k)) shapes 0%N.

(** [vector<size_t> opDims(dims, 0); for (k...) for (i...) ...] *)
Definition operationShape (dims : nat) (shapes : list TensorShape) : list N :=
  map (opDimAt shapes) (seq 0 dims).

(** Inner loop of the compatibility check at axis [k]: the first participant
    that does not match throws. *)
Fixpoint checkParticipants (k : nat) (opDims : list N) (shapes : list TensorShape)
  : option exception :=
  match shapes with
  | [] => None
  | s :: rest =>
      if negb (Matches (dimAt s k) (nth k opDims 0%N))
      then Some (InvalidArgument k (dimAt s k) s opDims)
      else checkParticipants k opDims rest
  end.

(** Outer loop of the compatibility check, over the axes still to visit. *)
Fixpoint checkAxes (ks : list nat) (opDims : list N) (shapes : list TensorShape)
  : option exception :=
  match ks with
  | [] => None
  | k :: ks' =>
      match checkParticipants k opDims shapes with
      | Some e => Some e
      | None => checkAxes ks' opDims shapes
      end
  end.

Definition checkDims (dims : nat) (opDims : list N) (shapes : list TensorShape)
  : option exception :=
  checkAxes (seq 0 dims) opDims shapes.

(** Inner loop of the flattening at axis [k]; [false] is [goto nope]. *)
Fixpoint mergeable (k : nat) (opDims : list N) (shapes : list TensorShape) : bool :=
  match shapes with
  | [] => true
  | s :: rest =>
      if negb (CanFlatten s k) then false
      else if (negb (dimAt s k =? nth k opDims 0)%N
               || negb (dimAt s (k - 1) =? nth (k - 1) opDims 0)%N)
              && (negb (dimAt s k =? 1)%N || negb (dimAt s (k - 1) =? 1)%N)
      then false
      else mergeable k opDims rest
  end.

(** One iteration of [for (k = 1; k < dims; k++)] of the flattening. *)
Definition flattenStep (st : list TensorShape * list N) (k : nat)
  : list TensorShape * list N :=
  let '(shapes, opDims) := st in
  if mergeable k opDims shapes
  then (map (fun s => Flatten s k) shapes,
        GetDims (Flatten (TensorShapeOf opDims) k))
  else st.

Definition flattenLoop (dims : nat) (st : list TensorShape * list N)
  : list TensorShape * list N :=
  fold_left flattenStep (seq 1 (dims - 1)) st.

(** Inner loop of the singleton search at axis [k]; [false] is
    [goto neither]. *)
Fixpoint allSingleton (k : nat) (shapes : list TensorShape) : bool :=
  match shapes with
  | [] => true
  | s :: rest =>
      if negb (dimAt s k =? 1)%N then false else allSingleton k rest
  end.

(** [vector<bool> toDrop(dims, false); for (k...) { ...; toDrop[k] = true; neither:; }] *)
Definition toDropOf (dims : nat) (shapes : list TensorShape) : list bool :=
  map (fun k => allSingleton k shapes) (seq 0 dims).

(** ** The store and the diagnostic stream *)

(** The four [fprintf (stderr, ...)] calls of [DoBinaryOpOf]. *)
Variant stage : Type := PreFlatten | PostFlatten | PostDrop | Operation.

Section Elementwise.

(** The template parameter and the operator enumeration of
    [TensorView.h]; nothing in the file looks inside either. *)
Context {ElemType ElementWiseOperator : Type}.

(** What one diagnostic line prints: the op code, the participants' shapes
    and the operation shape. *)
Record traceLine : Type := mkTraceLine {
  tl_stage : stage;
  tl_op : ElementWiseOperator;
  tl_shapes : list TensorShape;
  tl_opDims : list N
}.

(** The [TensorView] objects, by address, and what was written to
    [stderr] so far. *)
Record state : Type := mkState {
  views : positive -> TensorView;
  stderr : list traceLine
}.

Definition M (A : Type) : Type := state -> state * outcome A.

Definition ret {A : Type} (a : A) : M A := fun st => (st, Ret a).

Definition bind {A B : Type} (c : M A) (k : A -> M B) : M B :=
  fun st =>
    match c st with
    | (st', Ret a) => k a st'
    | (st', Throw e) => (st', Throw e)
    end.

Definition throw {A : Type} (e : exception) : M A := fun st => (st, Throw e).

(** [v.GetShape()] through a reference [v]. *)
Definition getShape (v : positive) : M TensorShape :=
  fun st => (st, Ret (GetShape (views st v))).

(** A constructed view object comes to live at address [v]. *)
Definition construct (v : positive) (c : outcome TensorView) : M unit :=
  fun st =>
    match c with
    | Ret t =>
        ({| views := fun w => if Pos.eqb w v then t else views st w;
            stderr := stderr st |}, Ret tt)
    | Throw e => (st, Throw e)
    end.

Definition fprintf (line : traceLine) : M unit :=
  fun st => ({| views := views st; stderr := stderr st ++ [line] |}, Ret tt).

Notation "x <- c ;; k" := (bind c (fun x => k))
  (at level 100, c at next level, right associativity).
Notation "c ;;; k" := (bind c (fun _ => k))
  (at level 100, right associativity).

(** [void TensorView<ElemType>::DoBinaryOpOf(ElemType beta, const TensorView & a,
    const TensorView & b, ElemType alpha, ElementWiseOperator op)],
    called on the object at address [this]. *)
Definition DoBinaryOpOf (this : positive) (beta : ElemType) (a b : positive)
    (alpha : ElemType) (op : ElementWiseOperator) : M unit :=
  sa <- getShape a ;;
  sb <- getShape b ;;
  sc <- getShape this ;;
  let shapes := [sa; sb; sc] in
  let dims := maxNumDims shapes in
  let shapes := padAll dims shapes in
  let opDims := operationShape dims shapes in
  match checkDims dims opDims shapes with
  | Some e => throw e
  | None => ret tt
  end ;;;
  fprintf (mkTraceLine PreFlatten op shapes opDims) ;;;
  let '(shapes, opDims) := flattenLoop dims (shapes, opDims) in
  fprintf (mkTraceLine PostFlatten op shapes opDims) ;;;
  let toDrop := toDropOf dims shapes in
  let shapes := map (fun s => DropSingletonDims s toDrop) shapes in
  let opDims := GetDims (DropSingletonDims (TensorShapeOf opDims) toDrop) in
  fprintf (mkTraceLine PostDrop op shapes opDims) ;;;
  let shapes := map WithBroadcastStrides shapes in
  fprintf (mkTraceLine Operation op shapes opDims).

(** Modelled from the spec: [DoSumOf], declared in [TensorView.h]; the
    binary operation with the sum as its op code. *)
Definition DoSumOf (opSum : ElementWiseOperator) (this : positive)
    (beta : ElemType) (a b : positive) (alpha : ElemType) : M unit :=
  DoBinaryOpOf this beta a b alpha opSum.

(** [static void TensorView<ElemType>::Test()].  The locals [m1], [m2],
    [m3] and [t1], [t2], [t3] live at addresses 1, 2, 3; [zero] and [one]
    are the literals [0] and [1] at [ElemType]. *)
Definition Test (opSum : ElementWiseOperator) (zero one : ElemType) : M unit :=
  let m1 := mkMatrix 1 1 42 in
  let m2 := mkMatrix 2 13 1 in
  let m3 := mkMatrix 3 13 21 in
  let s1 := TensorShapeOf [1; 2; 21]%N in
  let s2 := TensorShapeOf [13; 1]%N in
  let s3 := TensorShapeOf [13; 1; 21]%N in
  construct 1 (TensorView_over m1 s1) ;;;
  construct 2 (TensorView_over m2 s2) ;;;
  construct 3 (TensorView_over m3 s3) ;;;
  DoSumOf opSum 3 zero 1%positive 2%positive one.

End Elementwise.

Arguments traceLine : clear implicits.
Arguments state : clear implicits.

(** ** The local variables of [DoBinaryOpOf] at its program points

    Functions of the shapes read from the participants: what [shapes] and
    [opDims] hold after padding, after the flattening loop, after singleton
    removal and at the end. *)

Definition paddedShapes (shapes : list TensorShape) : list TensorShape :=
  padAll (maxNumDims shapes) shapes.

Definition paddedOpDims (shapes : list TensorShape) : list N :=
  operationShape (maxNumDims shapes) (paddedShapes shapes).

Definition flattened (shapes : list TensorShape) : list TensorShape * list N :=
  flattenLoop (maxNumDims shapes) (paddedShapes shapes, paddedOpDims shapes).

Definition dropMask (shapes : list TensorShape) : list bool :=
  toDropOf (maxNumDims shapes) (fst (flattened shapes)).

Definition dropped (shapes : list TensorShape) : list TensorShape * list N :=
  (map (fun s => DropSingletonDims s (dropMask shapes)) (fst (flattened shapes)),
   GetDims (DropSingletonDims (TensorShapeOf (snd (flattened shapes))) (dropMask shapes))).

Definition aligned (shapes : list TensorShape) : list TensorShape * list N :=
  (map WithBroadcastStrides (fst (dropped shapes)), snd (dropped shapes)).

Definition compatibility (shapes : list TensorShape) : option exception :=
  checkDims (maxNumDims shapes) (paddedOpDims shapes) (paddedShapes shapes).

(** The diagnostic lines of a call that gets past the compatibility check. *)
Definition traceOf {Op : Type} (op : Op) (shapes : list TensorShape)
  : list (traceLine Op) :=
  [ mkTraceLine PreFlatten op (paddedShapes shapes) (paddedOpDims shapes);
    mkTraceLine PostFlatten op (fst (flattened shapes)) (snd (flattened shapes));
    mkTraceLine PostDrop op (fst (dropped shapes)) (snd (dropped shapes));
    mkTraceLine Operation op (fst (aligned shapes)) (snd (aligned shapes)) ].

(** The shapes [DoBinaryOpOf] reads: the two inputs, then the output. *)
Definition participants {Op : Type} (st : state Op) (this a b : positive)
  : list TensorShape :=
  [GetShape (views st a); GetShape (views st b); GetShape (views st this)].

(** ** Notions the properties are stated with *)

(** The product of a sequence of extents, as a number (no wrap-around). *)
Definition product (l : list N) : N := fold_right N.mul 1%N l.

(** Splitting [dims] at [i] factors the two physical extents: the first [i]
    extents multiply to the row extent, the others to the column extent. *)
Definition factorsAt (dims : list N) (numRows numCols : N) (i : nat) : Prop :=
  i <= length dims /\
  product (take i dims) = numRows /\
  product (drop i dims) = numCols.

(** The invariant of a shape with strides: one stride per axis. *)
Definition hasStrides (s : TensorShape) : Prop :=
  length (m_strides s) = length (m_dims s).

(** The compatibility condition in the words of the specification:
    "[dims[i][k] == 1 OR dims[i][k] == opDims[k]]". *)
Definition MatchesAsymmetric (d opDim : N) : bool :=
  (d =? 1)%N || (d =? opDim)%N.

(** The two conditions for merging axes [k-1] and [k], in the words of the
    specification: (a) contiguous storage across the two axes, (b) matching
    broadcast status. *)
Definition contiguousAt (s : TensorShape) (k : nat) : Prop :=
  strideAt s k = (strideAt s (k - 1) * Z.of_N (dimAt s (k - 1)))%Z.

Definition sameBroadcastStatus (s : TensorShape) (opDims : list N) (k : nat) : Prop :=
  (dimAt s k = nth k opDims 0%N /\ dimAt s (k - 1) = nth (k - 1) opDims 0%N)
  \/ (dimAt s k = 1%N /\ dimAt s (k - 1) = 1%N).

(** What a merge of axes [k-1] and [k] makes of the participants and of the
    operation shape (a [vector<size_t>]: the product is the [size_t]
    product). *)
Definition mergedAt (k : nat) (st : list TensorShape * list N)
  : list TensorShape * list N :=
  (map (fun s => Flatten s k) (fst st),
   <[k := SizeT.mul (nth k (snd st) 0%N) (nth (k - 1) (snd st) 0%N)]>
     (<[k - 1 := 1%N]> (snd st))).

(** The largest extent at axis [k] among [shapes]. *)
Definition maxExtentAt (shapes : list TensorShape) (k : nat) : N :=
  fold_right N.max 0%N (map (fun s => dimAt s k) shapes).

(** The axes that survive a drop mask, counted from [k]: the positions
    whose flag is not set. *)
Fixpoint keptFrom (k : nat) (toDrop : list bool) : list nat :=
  match toDrop with
  | [] => []
  | b :: toDrop' =>
      if b then keptFrom (S k) toDrop' else k :: keptFrom (S k) toDrop'
  end.

(** Following one axis through an iteration of the flattening loop.  [tr]
    holds the position that carries the axis and whether a merge has
    involved it; a merge at [k] moves the content of axis [k-1] into
    axis [k]. *)
Definition trackStep (st : list TensorShape * list N) (tr : nat * bool) (k : nat)
  : nat * bool :=
  if mergeable k (snd st) (fst st)
  then if fst tr =? k - 1 then (k, true)
       else if fst tr =? k then (fst tr, true)
       else tr
  else tr.

Fixpoint trackLoop (ks : list nat) (st : list TensorShape * list N)
    (tr : nat * bool) : nat * bool :=
  match ks with
  | [] => tr
  | k :: ks' => trackLoop ks' (flattenStep st k) (trackStep st tr k)
  end.

(** Where the declared axis [k] is after the flattening loop, and whether
    it was merged with a neighbour. *)
Definition flattenedAxis (ps : list TensorShape) (k : nat) : nat * bool :=
  trackLoop (seq 1 (maxNumDims ps - 1)) (paddedShapes ps, paddedOpDims ps)
            (k, false).

(** The index of the declared axis [k] in the final shapes: the number of
    surviving axes below its position after flattening. *)
Definition finalAxis (ps : list TensorShape) (k : nat) : nat :=
  length (keptFrom 0 (take (fst (flattenedAxis ps k)) (dropMask ps))).

(** The runs of merged axes.  [los] gives, for every position, the lowest
    declared axis whose content the position holds; after a merge at [k]
    position [k] holds the run that ended at [k-1] extended by [k], and
    position [k-1] holds nothing (its run starts above it). *)
Definition runStep (st : list TensorShape * list N) (los : list nat) (k : nat)
  : list nat :=
  if mergeable k (snd st) (fst st)
  then <[k := nth (k - 1) los 0]> (<[k - 1 := k]> los)
  else los.

Fixpoint runLoop (ks : list nat) (st : list TensorShape * list N)
    (los : list nat) : list nat :=
  match ks with
  | [] => los
  | k :: ks' => runLoop ks' (flattenStep st k) (runStep st los k)
  end.

Definition runStarts (ps : list TensorShape) : list nat :=
  runLoop (seq 1 (maxNumDims ps - 1)) (paddedShapes ps, paddedOpDims ps)
          (seq 0 (maxNumDims ps)).

(** The product of the extents [opDims[lo..hi]] (1 when [lo > hi]). *)
Definition runProduct (opDims : list N) (lo hi : nat) : N :=
  product (map (fun y => nth y opDims 0%N) (seq lo (S hi - lo))).

(** ** Running [DoBinaryOpOf] *)

Lemma DoBinaryOpOf_run {ElemType Op : Type} (st : state Op) (this a b : positive)
    (beta alpha : ElemType) (op : Op) :
  DoBinaryOpOf this beta a b alpha op st =
  match compatibility (participants st this a b) with
  | Some e => (st, Throw e)
  | None =>
      ({| views := views st;
          stderr := stderr st ++ traceOf op (participants st this a b) |},
       Ret tt)
  end.
Proof.
  unfold DoBinaryOpOf, compatibility, bind, getShape, throw, ret, fprintf. simpl.
  fold (participants st this a b).
  fold (paddedShapes (participants st this a b)).
  fold (paddedOpDims (participants st this a b)).
  destruct (checkDims _ _ _) as [e|]; [reflexivity|].
  unfold traceOf, aligned, dropped, dropMask, flattened. simpl.
  destruct (flattenLoop _ _) as [fs fo]. simpl.
  repeat rewrite <- app_assoc. reflexivity.
Qed.

(** ** Construction: factoring the storage extents *)

Lemma product_app (l1 l2 : list N) :
  product (l1 ++ l2) = (product l1 * product l2)%N.
Proof.
  induction l1 as [|d l1 IH]; simpl.
  - now rewrite N.mul_1_l.
  - rewrite IH. apply N.mul_assoc.
Qed.

Lemma product_take_drop (i : nat) (l : list N) :
  product l = (product (take i l) * product (drop i l))%N.
Proof. now rewrite <- product_app, take_drop. Qed.

Lemma product_pos (l : list N) :
  Forall (fun d => 1 <= d)%N l -> (1 <= product l)%N.
Proof.
  induction 1 as [|d l Hd _ IH]; simpl; [lia|nia].
Qed.

Lemma SizeT_mul_small (x y : N) :
  (x * y < SizeT.modulus)%N -> SizeT.mul x y = (x * y)%N.
Proof. intros H. unfold SizeT.mul. now apply N.mod_small. Qed.

(** Without overflow the second loop computes the product. *)
Lemma colLoop_from (l : list N) (acc : N) :
  Forall (fun d => 1 <= d)%N l ->
  (acc * product l < SizeT.modulus)%N ->
  fold_left SizeT.mul l acc = (acc * product l)%N.
Proof.
  intros Hl. revert acc.
  induction Hl as [|d l Hd Hl IH]; intros acc Hb; simpl in *.
  - lia.
  - pose proof (product_pos l Hl) as Hp.
    rewrite SizeT_mul_small by nia.
    rewrite IH by nia. lia.
Qed.

Lemma colLoop_product (l : list N) :
  Forall (fun d => 1 <= d)%N l ->
  (product l < SizeT.modulus)%N ->
  colLoop l = product l.
Proof.
  intros Hl Hb. unfold colLoop. rewrite colLoop_from; [lia|trivial|lia].
Qed.

(** The greedy first loop finds a split whenever there is one. *)
Lemma rowLoop_factors (numRows numCols : N) (l : list N) (acc : N) :
  Forall (fun d => 1 <= d)%N l ->
  (1 <= acc)%N ->
  (acc * product l < SizeT.modulus)%N ->
  (fst (rowLoop numRows acc l) = numRows /\
   colLoop (snd (rowLoop numRows acc l)) = numCols)
  <->
  (exists i, i <= length l /\
             (acc * product (take i l))%N = numRows /\
             product (drop i l) = numCols).
Proof.
  intros Hl. revert acc.
  induction Hl as [|d l Hd Hl IH]; intros acc Hacc Hb.
  - simpl. split.
    + intros [H1 H2]. exists 0. simpl. unfold colLoop in H2. simpl in H2.
      repeat split; [lia|lia|congruence].
    + intros (i & Hi & H1 & H2). destruct i; simpl in *; [|lia].
      unfold colLoop. simpl. split; lia.
  - pose proof (product_pos l Hl) as Hp.
    simpl in Hb. simpl rowLoop.
    destruct (N.ltb_spec acc numRows) as [Hlt|Hge].
    + rewrite SizeT_mul_small by nia.
      rewrite IH by nia. split.
      * intros (i & Hi & H1 & H2). exists (S i). simpl.
        repeat split; [lia|lia|trivial].
      * intros (i & Hi & H1 & H2). destruct i as [|i]; simpl in *.
        -- lia.
        -- exists i. repeat split; [lia|lia|trivial].
    + simpl fst. simpl snd.
      rewrite colLoop_product by (try (constructor; trivial); simpl; nia).
      split.
      * intros [H1 H2]. exists 0. simpl. repeat split; [lia|lia|trivial].
      * intros (i & Hi & H1 & H2).
        pose proof (product_take_drop i (d :: l)) as Hsplit.
        assert (1 <= product (take i (d :: l)))%N as Hpt.
        { apply product_pos. apply Forall_take. now constructor. }
        assert (product (take i (d :: l)) = 1)%N by nia.
        split; [nia|]. rewrite Hsplit. nia.
Qed.

(** C1 (as amended).  Reinterpreting a view with a new shape whose extents
    are all at least 1 and whose product of extents fits in [size_t]
    succeeds if and only if some split point [i] makes the product of
    [dims[0..i)] the physical row extent and the product of [dims[i..end)]
    the physical column extent.  On success the new view has the storage of
    the old one and the new shape; when no split exists the constructor
    throws the [LogicError] carrying the shape and the two physical extents,
    and no view is produced. *)
Theorem reshape_factorization (other : TensorView) (shape : TensorShape) :
  Forall (fun d => 1 <= d)%N (m_dims shape) ->
  (product (m_dims shape) < SizeT.modulus)%N ->
  let numRows := GetNumRows (m_sob other) in
  let numCols := GetNumCols (m_sob other) in
  ((exists v, TensorView_reshape other shape = Ret v)
   <-> (exists i, factorsAt (m_dims shape) numRows numCols i))
  /\ (forall v, TensorView_reshape other shape = Ret v ->
                v = {| m_sob := m_sob other; m_shape := shape |})
  /\ (~ (exists i, factorsAt (m_dims shape) numRows numCols i) ->
      TensorView_reshape other shape = Throw (LogicError shape numRows numCols)).
Proof.
  intros Hdims Hfit numRows numCols.
  pose proof (rowLoop_factors numRows numCols (m_dims shape) 1 Hdims) as Hloop.
  assert ((fst (rowLoop numRows 1 (m_dims shape)) = numRows /\
           colLoop (snd (rowLoop numRows 1 (m_dims shape))) = numCols)
          <-> exists i, factorsAt (m_dims shape) numRows numCols i) as Hiff.
  { rewrite Hloop by lia. unfold factorsAt.
    split; intros (i & Hi & H1 & H2); exists i; repeat split; trivial; lia. }
  clear Hloop.
  unfold TensorView_reshape. fold numRows numCols.
  destruct (rowLoop numRows 1 (m_dims shape)) as [rowDim rest]. simpl in Hiff.
  destruct (N.eqb_spec rowDim numRows) as [Hr|Hr];
    destruct (N.eqb_spec (colLoop rest) numCols) as [Hc|Hc]; simpl.
  - repeat split.
    + intros _. apply Hiff. now split.
    + intros _. eexists. reflexivity.
    + intros v Hv. now inversion Hv.
    + intros Hno. exfalso. apply Hno, Hiff. now split.
  - repeat split.
    + intros [v Hv]. discriminate.
    + intros Hex. apply Hiff in Hex. tauto.
    + intros v Hv. discriminate.
  - repeat split.
    + intros [v Hv]. discriminate.
    + intros Hex. apply Hiff in Hex. tauto.
    + intros v Hv. discriminate.
  - repeat split.
    + intros [v Hv]. discriminate.
    + intros Hex. apply Hiff in Hex. tauto.
    + intros v Hv. discriminate.
Qed.

(** The first view of the self-test: shape (1,2,21) over a 1 x 42 matrix. *)
Lemma reshape_factorization_witness :
  (exists v, TensorView_reshape (TensorView_cast (mkMatrix 1 1 42))
                                (TensorShapeOf [1; 2; 21]%N) = Ret v)
  <-> (exists i, factorsAt [1; 2; 21]%N 1%N 42%N i).
Proof.
  refine (proj1 (reshape_factorization (TensorView_cast (mkMatrix 1 1 42))
                                       (TensorShapeOf [1; 2; 21]%N) _ _)).
  - simpl. repeat constructor; lia.
  - reflexivity.
Defined.

(** C1 as stated fails where the [size_t] product wraps around: over a 6 x 1
    matrix the shape (5, 14757395258967641294) is accepted, since
    [5 * 14757395258967641294 = 4 * 2^64 + 6], although none of its three
    splits factors (6, 1). *)
Lemma reshape_factorization_overflow :
  let other := TensorView_cast (mkMatrix 1 6 1) in
  let shape := TensorShapeOf [5; 14757395258967641294]%N in
  Forall (fun d => 1 <= d)%N (m_dims shape) /\
  (exists v, TensorView_reshape other shape = Ret v) /\
  ~ (exists i, factorsAt (m_dims shape)
                 (GetNumRows (m_sob other)) (GetNumCols (m_sob other)) i).
Proof.
  simpl. split; [|split].
  - repeat constructor; lia.
  - eexists. vm_compute. reflexivity.
  - intros (i & Hi & H1 & H2). simpl in Hi.
    destruct i as [|[|[|i]]]; [| | |lia]; vm_compute in H1; discriminate.
Qed.

(** ** Padding and the operation shape *)

Lemma maxNumDims_from (shapes : list TensorShape) (acc : nat) :
  fold_left (fun dims s => if dims <? GetNumDims s then GetNumDims s else dims)
            shapes acc
  = Nat.max acc (foldr Nat.max 0 (map GetNumDims shapes)).
Proof.
  revert acc. induction shapes as [|s shapes IH]; intros acc; simpl.
  - lia.
  - rewrite IH. destruct (Nat.ltb_spec acc (GetNumDims s)); lia.
Qed.

Lemma maxNumDims_max (shapes : list TensorShape) :
  maxNumDims shapes = foldr Nat.max 0 (map GetNumDims shapes).
Proof. unfold maxNumDims. now rewrite maxNumDims_from. Qed.

Lemma maxNumDims_ge (shapes : list TensorShape) (s : TensorShape) :
  s ∈ shapes -> GetNumDims s <= maxNumDims shapes.
Proof.
  rewrite maxNumDims_max.
  induction 1 as [s shapes|s t shapes _ IH]; simpl.
  - lia.
  - lia.
Qed.

Lemma maxNumDims_nonempty (shapes : list TensorShape) :
  0 < maxNumDims shapes -> shapes <> [].
Proof. intros H ->. unfold maxNumDims in H. simpl in H. lia. Qed.

Lemma Pad_dims (s : TensorShape) (dims : nat) :
  GetNumDims s <= dims -> GetNumDims (Pad s dims) = dims.
Proof.
  intros H. unfold Pad, GetNumDims in *. simpl.
  rewrite length_app, length_replicate. lia.
Qed.

Lemma Pad_dimAt_declared (s : TensorShape) (dims k : nat) :
  k < GetNumDims s -> dimAt (Pad s dims) k = dimAt s k.
Proof.
  intros H. unfold dimAt, Pad, GetNumDims in *. simpl.
  now rewrite app_nth1.
Qed.

Lemma Pad_dimAt_appended (s : TensorShape) (dims k : nat) :
  GetNumDims s <= k -> k < dims -> dimAt (Pad s dims) k = 1%N.
Proof.
  intros H1 H2. unfold dimAt, Pad, GetNumDims in *. simpl.
  rewrite app_nth2 by lia.
  rewrite nth_lookup, lookup_replicate_2 by lia. reflexivity.
Qed.

Lemma paddedShapes_rank (ps : list TensorShape) (s : TensorShape) :
  s ∈ paddedShapes ps -> GetNumDims s = maxNumDims ps.
Proof.
  unfold paddedShapes, padAll. rewrite list_elem_of_fmap.
  intros (s0 & -> & Hs0). apply Pad_dims. now apply maxNumDims_ge.
Qed.

Lemma opDimAt_from (shapes : list TensorShape) (k : nat) (acc : N) :
  fold_left (fun m s => N.max m (dimAt s k)) shapes acc
  = N.max acc (maxExtentAt shapes k).
Proof.
  revert acc. induction shapes as [|s shapes IH]; intros acc; simpl.
  - unfold maxExtentAt. simpl. lia.
  - rewrite IH. unfold maxExtentAt. simpl. lia.
Qed.

Lemma opDimAt_max (shapes : list TensorShape) (k : nat) :
  opDimAt shapes k = maxExtentAt shapes k.
Proof. unfold opDimAt. rewrite opDimAt_from. lia. Qed.

Lemma maxExtentAt_ge (shapes : list TensorShape) (k : nat) (s : TensorShape) :
  s ∈ shapes -> (dimAt s k <= maxExtentAt shapes k)%N.
Proof.
  unfold maxExtentAt.
  induction 1 as [s shapes|s t shapes _ IH]; simpl; lia.
Qed.

Lemma maxExtentAt_attained (shapes : list TensorShape) (k : nat) :
  shapes <> [] -> exists s, s ∈ shapes /\ dimAt s k = maxExtentAt shapes k.
Proof.
  unfold maxExtentAt.
  induction shapes as [|s shapes IH]; [congruence|intros _].
  destruct shapes as [|t shapes].
  - exists s. split; [constructor|]. simpl. lia.
  - destruct IH as (u & Hu & Hmax); [congruence|].
    simpl in *.
    destruct (N.max_spec (dimAt s k)
                (N.max (dimAt t k) (foldr N.max 0%N (map (fun s => dimAt s k) shapes))))
      as [[_ ->]|[_ ->]].
    + exists u. split; [now constructor|trivial].
    + exists s. split; [constructor|trivial].
Qed.

Lemma operationShape_length (dims : nat) (shapes : list TensorShape) :
  length (operationShape dims shapes) = dims.
Proof. unfold operationShape. now rewrite length_map, length_seq. Qed.

Lemma operationShape_nth (dims : nat) (shapes : list TensorShape) (k : nat) :
  k < dims -> nth k (operationShape dims shapes) 0%N = opDimAt shapes k.
Proof.
  intros H. unfold operationShape.
  rewrite nth_lookup, list_lookup_fmap, lookup_seq_lt by trivial. reflexivity.
Qed.

Lemma paddedOpDims_nth (ps : list TensorShape) (k : nat) :
  k < maxNumDims ps ->
  nth k (paddedOpDims ps) 0%N = maxExtentAt (paddedShapes ps) k.
Proof.
  intros Hk. unfold paddedOpDims. rewrite operationShape_nth by trivial.
  apply opDimAt_max.
Qed.

Lemma paddedOpDims_ge (ps : list TensorShape) (k : nat) (s : TensorShape) :
  k < maxNumDims ps -> s ∈ paddedShapes ps ->
  (dimAt s k <= nth k (paddedOpDims ps) 0)%N.
Proof.
  intros Hk Hs. rewrite paddedOpDims_nth by trivial. now apply maxExtentAt_ge.
Qed.

Lemma paddedShapes_nonempty (ps : list TensorShape) :
  0 < maxNumDims ps -> paddedShapes ps <> [].
Proof.
  intros Hk Hnil. unfold paddedShapes, padAll in Hnil.
  apply map_eq_nil in Hnil. now apply (maxNumDims_nonempty ps).
Qed.

Lemma paddedOpDims_attained (ps : list TensorShape) (k : nat) :
  k < maxNumDims ps ->
  exists s, s ∈ paddedShapes ps /\ dimAt s k = nth k (paddedOpDims ps) 0%N.
Proof.
  intros Hk. rewrite paddedOpDims_nth by trivial.
  apply maxExtentAt_attained, paddedShapes_nonempty. lia.
Qed.

(** C3.  After padding, all participants have the common rank, the
    operation shape has one entry per axis, and at every axis [k] the entry
    [opDims[k]] is the maximum over all participants of their extent at
    [k]: no participant exceeds it and some participant attains it. *)
Theorem opDims_is_max (ps : list TensorShape) (k : nat) :
  k < maxNumDims ps ->
  let shapes := paddedShapes ps in
  let opDims := paddedOpDims ps in
  (forall s, s ∈ shapes -> GetNumDims s = maxNumDims ps)
  /\ length opDims = maxNumDims ps
  /\ nth k opDims 0%N = maxExtentAt shapes k
  /\ (forall s, s ∈ shapes -> (dimAt s k <= nth k opDims 0)%N)
  /\ (exists s, s ∈ shapes /\ dimAt s k = nth k opDims 0%N).
Proof.
  intros Hk shapes opDims.
  assert (nth k opDims 0%N = maxExtentAt shapes k) as Hmax.
  { unfold opDims, paddedOpDims. rewrite operationShape_nth by trivial.
    apply opDimAt_max. }
  split; [apply paddedShapes_rank|].
  split; [apply operationShape_length|].
  split; [exact Hmax|].
  rewrite Hmax. split.
  - intros s Hs. now apply maxExtentAt_ge.
  - apply maxExtentAt_attained.
    unfold shapes, paddedShapes, padAll.
    intros Hnil. apply map_eq_nil in Hnil.
    apply (maxNumDims_nonempty ps); [lia|trivial].
Qed.

(** The self-test participants at axis 1: the maximum of 2, 1 and 1. *)
Lemma opDims_is_max_witness :
  let ps := [TensorShapeOf [1; 2; 21]%N; TensorShapeOf [13; 1]%N;
             TensorShapeOf [13; 1; 21]%N] in
  nth 1 (paddedOpDims ps) 0%N = maxExtentAt (paddedShapes ps) 1.
Proof.
  intros ps.
  refine (proj1 (proj2 (proj2 (opDims_is_max ps 1 _)))).
  vm_compute. lia.
Defined.

(** ** The compatibility check *)

Lemma Matches_false (d opDim : N) :
  Matches d opDim = false <-> d <> 1%N /\ opDim <> 1%N /\ d <> opDim.
Proof.
  unfold Matches.
  destruct (N.eqb_spec d 1), (N.eqb_spec opDim 1), (N.eqb_spec d opDim);
    simpl; intuition congruence.
Qed.

Lemma checkParticipants_None (k : nat) (opDims : list N) (shapes : list TensorShape) :
  checkParticipants k opDims shapes = None
  <-> Forall (fun s => Matches (dimAt s k) (nth k opDims 0%N) = true) shapes.
Proof.
  induction shapes as [|s shapes IH]; simpl.
  - split; [constructor|trivial].
  - destruct (Matches (dimAt s k) (nth k opDims 0%N)) eqn:Hm; simpl.
    + rewrite IH. split; [now constructor|now inversion 1].
    + split; [discriminate|]. inversion 1; congruence.
Qed.

Lemma checkParticipants_Some (k : nat) (opDims : list N) (shapes : list TensorShape)
    (e : exception) :
  checkParticipants k opDims shapes = Some e ->
  exists i s, shapes !! i = Some s
              /\ Matches (dimAt s k) (nth k opDims 0%N) = false
              /\ e = InvalidArgument k (dimAt s k) s opDims.
Proof.
  induction shapes as [|s shapes IH]; simpl; [discriminate|].
  destruct (Matches (dimAt s k) (nth k opDims 0%N)) eqn:Hm; simpl.
  - intros H. destruct (IH H) as (i & t & Hi & Ht & He).
    exists (S i), t. auto.
  - intros [= <-]. exists 0, s. auto.
Qed.

Lemma checkAxes_None (ks : list nat) (opDims : list N) (shapes : list TensorShape) :
  checkAxes ks opDims shapes = None
  <-> Forall (fun k => Forall (fun s => Matches (dimAt s k) (nth k opDims 0%N) = true)
                              shapes) ks.
Proof.
  induction ks as [|k ks IH]; simpl.
  - split; [constructor|trivial].
  - destruct (checkParticipants k opDims shapes) as [e|] eqn:Hk.
    + split; [discriminate|]. inversion 1 as [|? ? Hall _]; subst.
      apply checkParticipants_None in Hall. congruence.
    + apply checkParticipants_None in Hk. rewrite IH.
      split; [now constructor|now inversion 1].
Qed.

Lemma checkAxes_Some (ks : list nat) (opDims : list N) (shapes : list TensorShape)
    (e : exception) :
  checkAxes ks opDims shapes = Some e ->
  exists k i s, k ∈ ks /\ shapes !! i = Some s
                /\ Matches (dimAt s k) (nth k opDims 0%N) = false
                /\ e = InvalidArgument k (dimAt s k) s opDims.
Proof.
  induction ks as [|k ks IH]; simpl; [discriminate|].
  destruct (checkParticipants k opDims shapes) as [e'|] eqn:Hk.
  - intros [= <-]. apply checkParticipants_Some in Hk.
    destruct Hk as (i & s & Hi & Hs & He).
    exists k, i, s. split; [constructor|auto].
  - intros H. destruct (IH H) as (k' & i & s & Hk' & Hi & Hs & He).
    exists k', i, s. split; [now constructor|auto].
Qed.

(** The check passes exactly when [Matches] holds at every axis for every
    padded participant. *)
Lemma compatibility_None (ps : list TensorShape) :
  compatibility ps = None
  <-> (forall k s, k < maxNumDims ps -> s ∈ paddedShapes ps ->
                   Matches (dimAt s k) (nth k (paddedOpDims ps) 0%N) = true).
Proof.
  unfold compatibility, checkDims. rewrite checkAxes_None, Forall_forall.
  split.
  - intros H k s Hk Hs. specialize (H k). rewrite Forall_forall in H.
    apply H; [|trivial]. apply elem_of_seq. lia.
  - intros H k Hk. apply elem_of_seq in Hk. rewrite Forall_forall.
    intros s Hs. apply H; [lia|trivial].
Qed.

Lemma compatibility_Some (ps : list TensorShape) (e : exception) :
  compatibility ps = Some e ->
  exists k i s, k < maxNumDims ps /\ paddedShapes ps !! i = Some s
                /\ Matches (dimAt s k) (nth k (paddedOpDims ps) 0%N) = false
                /\ e = InvalidArgument k (dimAt s k) s (paddedOpDims ps).
Proof.
  unfold compatibility, checkDims. intros H.
  apply checkAxes_Some in H. destruct H as (k & i & s & Hk & Hi & Hs & He).
  exists k, i, s. apply elem_of_seq in Hk. split; [lia|auto].
Qed.

Lemma paddedShapes_dim_pos (ps : list TensorShape) (s : TensorShape) (k : nat) :
  (forall s, s ∈ ps -> Forall (fun d => 1 <= d)%N (m_dims s)) ->
  s ∈ paddedShapes ps -> k < maxNumDims ps -> (1 <= dimAt s k)%N.
Proof.
  intros Hpos Hs Hk. unfold paddedShapes, padAll in Hs.
  apply list_elem_of_fmap in Hs. destruct Hs as (s0 & -> & Hs0).
  destruct (Nat.lt_ge_cases k (GetNumDims s0)) as [Hlt|Hge].
  - rewrite Pad_dimAt_declared by trivial.
    specialize (Hpos s0 Hs0). rewrite Forall_forall in Hpos.
    apply Hpos. unfold dimAt. apply list_elem_of_In, nth_In. exact Hlt.
  - rewrite Pad_dimAt_appended by trivial. lia.
Qed.

Lemma MatchesAsymmetric_false (d opDim : N) :
  MatchesAsymmetric d opDim = false <-> d <> 1%N /\ d <> opDim.
Proof.
  unfold MatchesAsymmetric.
  destruct (N.eqb_spec d 1), (N.eqb_spec d opDim); simpl; intuition congruence.
Qed.

(** An extent between 1 and the operation extent: the disjunct
    [opDim == 1] of [Matches] adds nothing. *)
Lemma Matches_bounded (d opDim : N) :
  (1 <= d)%N -> (d <= opDim)%N -> Matches d opDim = MatchesAsymmetric d opDim.
Proof.
  intros H1 Hle. unfold Matches, MatchesAsymmetric.
  destruct (N.eqb_spec d 1), (N.eqb_spec opDim 1), (N.eqb_spec d opDim);
    simpl; trivial; lia.
Qed.

(** C2 (as amended).  For every invocation of the binary operation in which
    all declared extents are at least 1, the compatibility check throws
    [InvalidArgument] if and only if there are an axis [k] and a padded
    participant whose extent at [k] is neither 1 nor equal to [opDims[k]].
    The exception then names such an axis, the offending participant's
    padded shape (and its extent there) and the operation shape; the store
    and the diagnostic stream are as before the call, so nothing of the
    flattening, singleton dropping and stride assignment has happened. *)
Theorem DoBinaryOpOf_mismatch {ElemType Op : Type} (st : state Op)
    (this a b : positive) (beta alpha : ElemType) (op : Op) :
  let ps := participants st this a b in
  (forall s, s ∈ ps -> Forall (fun d => 1 <= d)%N (m_dims s)) ->
  let offends (k : nat) (s : TensorShape) :=
    dimAt s k <> 1%N /\ dimAt s k <> nth k (paddedOpDims ps) 0%N in
  let run := DoBinaryOpOf this beta a b alpha op st in
  ((exists e, snd run = Throw e)
   <-> (exists k s, k < maxNumDims ps /\ s ∈ paddedShapes ps /\ offends k s))
  /\ (forall e, snd run = Throw e ->
        fst run = st
        /\ exists k i s, k < maxNumDims ps /\ paddedShapes ps !! i = Some s
                         /\ offends k s
                         /\ e = InvalidArgument k (dimAt s k) s (paddedOpDims ps))
  /\ (snd run = Ret tt ->
        stderr (fst run) = stderr st ++ traceOf op ps).
Proof.
  intros ps Hpos offends run.
  assert (forall k s, k < maxNumDims ps -> s ∈ paddedShapes ps ->
            (Matches (dimAt s k) (nth k (paddedOpDims ps) 0%N) = false
             <-> offends k s)) as Hoff.
  { intros k s Hk Hs. rewrite Matches_bounded.
    - apply MatchesAsymmetric_false.
    - now apply (paddedShapes_dim_pos ps).
    - now apply paddedOpDims_ge. }
  unfold run. rewrite DoBinaryOpOf_run. fold ps.
  destruct (compatibility ps) as [e|] eqn:Hc; simpl.
  - pose proof (compatibility_Some ps e Hc) as (k & i & s & Hk & Hi & Hs & He).
    assert (s ∈ paddedShapes ps) as Hin
      by (eapply list_elem_of_lookup_2; eauto).
    apply Hoff in Hs; [|trivial|trivial].
    split; [|split].
    + split; [|intros _; eauto].
      intros _. exists k, s. auto.
    + intros e' [= <-]. split; [reflexivity|]. exists k, i, s. auto.
    + discriminate.
  - split; [|split].
    + split; [intros [e He]; discriminate|].
      intros (k & s & Hk & Hs & Hbad). exfalso.
      rewrite compatibility_None in Hc. specialize (Hc k s Hk Hs).
      apply Hoff in Hbad; [|trivial|trivial]. congruence.
    + discriminate.
    + reflexivity.
Qed.

(** Inputs of extents 3 and 5 and an output of extent 5: the check throws
    at axis 0 for the first input and writes no diagnostic line. *)
Lemma DoBinaryOpOf_mismatch_witness :
  let st : state unit :=
    mkState (fun v => if Pos.eqb v 1 then TensorView_cast (mkMatrix 1 3 1)
                      else TensorView_cast (mkMatrix 2 5 1)) [] in
  fst (DoBinaryOpOf 3 tt 1 2 tt tt st) = st
  /\ exists k i s, k < maxNumDims (participants st 3 1 2)
                   /\ paddedShapes (participants st 3 1 2) !! i = Some s
                   /\ (dimAt s k <> 1%N
                       /\ dimAt s k <> nth k (paddedOpDims (participants st 3 1 2)) 0%N)
                   /\ InvalidArgument 0 3 (TensorShapeOf [3; 1]%N) [5; 1]%N
                      = InvalidArgument k (dimAt s k) s
                          (paddedOpDims (participants st 3 1 2)).
Proof.
  intros st.
  refine (proj1 (proj2 (DoBinaryOpOf_mismatch st 3 1 2 tt tt tt _)) _ _).
  - intros s Hs. vm_compute in Hs.
    repeat (apply elem_of_cons in Hs; destruct Hs as [->|Hs];
            [repeat constructor; lia|]).
    now apply elem_of_nil in Hs.
  - reflexivity.
Defined.

(** C2 as stated fails for an extent 0: over a 0 x 1 matrix, a 1 x 1 matrix
    and a 1 x 1 output the operation shape is (1, 1) and nothing is thrown,
    although the first input's extent 0 at axis 0 is neither 1 nor
    [opDims[0]]. *)
Lemma DoBinaryOpOf_mismatch_zero_extent :
  let st : state unit :=
    mkState (fun v => if Pos.eqb v 1 then TensorView_cast (mkMatrix 1 0 1)
                      else TensorView_cast (mkMatrix 2 1 1)) [] in
  let ps := participants st 3 1 2 in
  snd (DoBinaryOpOf 3 tt 1 2 tt tt st) = Ret tt
  /\ exists k s, k < maxNumDims ps /\ s ∈ paddedShapes ps
                 /\ dimAt s k <> 1%N /\ dimAt s k <> nth k (paddedOpDims ps) 0%N.
Proof.
  split; [reflexivity|].
  exists 0, (TensorShapeOf [0; 1]%N).
  split; [vm_compute; lia|].
  split; [vm_compute; constructor|].
  split; vm_compute; discriminate.
Qed.

(** C10.  When all declared extents are at least 1, the predicate the code
    evaluates, [Matches] (extent is 1, or [opDims[k]] is 1, or the two are
    equal), and the asymmetric condition of the specification (extent is 1
    or equals [opDims[k]]) agree at every axis and padded participant, and so
    the compatibility check accepts exactly the shape combinations that
    satisfy the asymmetric condition everywhere. *)
Theorem Matches_refines_asymmetric (ps : list TensorShape) :
  (forall s, s ∈ ps -> Forall (fun d => 1 <= d)%N (m_dims s)) ->
  let opDims := paddedOpDims ps in
  (forall k s, k < maxNumDims ps -> s ∈ paddedShapes ps ->
     Matches (dimAt s k) (nth k opDims 0%N)
     = MatchesAsymmetric (dimAt s k) (nth k opDims 0%N))
  /\ (compatibility ps = None
      <-> (forall k s, k < maxNumDims ps -> s ∈ paddedShapes ps ->
             MatchesAsymmetric (dimAt s k) (nth k opDims 0%N) = true)).
Proof.
  intros Hpos opDims.
  assert (forall k s, k < maxNumDims ps -> s ∈ paddedShapes ps ->
            Matches (dimAt s k) (nth k opDims 0%N)
            = MatchesAsymmetric (dimAt s k) (nth k opDims 0%N)) as Hagree.
  { intros k s Hk Hs. apply Matches_bounded.
    - now apply (paddedShapes_dim_pos ps).
    - now apply paddedOpDims_ge. }
  split; [exact Hagree|].
  rewrite compatibility_None. fold opDims.
  split; intros H k s Hk Hs; specialize (H k s Hk Hs);
    rewrite Hagree in *; trivial.
Qed.

(** The self-test participants: all extents are at least 1. *)
Lemma Matches_refines_asymmetric_witness :
  let ps := [TensorShapeOf [1; 2; 21]%N; TensorShapeOf [13; 1]%N;
             TensorShapeOf [13; 1; 21]%N] in
  compatibility ps = None
  <-> (forall k s, k < maxNumDims ps -> s ∈ paddedShapes ps ->
         MatchesAsymmetric (dimAt s k) (nth k (paddedOpDims ps) 0%N) = true).
Proof.
  intros ps.
  refine (proj2 (Matches_refines_asymmetric ps _)).
  intros s Hs. unfold ps in Hs.
  repeat (apply elem_of_cons in Hs; destruct Hs as [->|Hs];
          [simpl; repeat constructor; lia|]).
  now apply elem_of_nil in Hs.
Defined.

(** ** The call leaves the views alone *)

(** C9.  The binary operation has no effect on its participants: whether it
    returns or throws, the store of view objects after the call is the store
    before it, so the shape and the storage binding of the output view and
    of both input views are unchanged.  All shape work happens on values
    copied out of the views. *)
Theorem DoBinaryOpOf_frame {ElemType Op : Type} (st : state Op)
    (this a b : positive) (beta alpha : ElemType) (op : Op) :
  let st' := fst (DoBinaryOpOf this beta a b alpha op st) in
  views st' = views st
  /\ (GetShape (views st' this) = GetShape (views st this)
      /\ m_sob (views st' this) = m_sob (views st this))
  /\ (GetShape (views st' a) = GetShape (views st a)
      /\ m_sob (views st' a) = m_sob (views st a))
  /\ (GetShape (views st' b) = GetShape (views st b)
      /\ m_sob (views st' b) = m_sob (views st b)).
Proof.
  intros st'.
  assert (views st' = views st) as Hviews.
  { unfold st'. rewrite DoBinaryOpOf_run.
    destruct (compatibility _); reflexivity. }
  rewrite Hviews. repeat split.
Qed.

(** ** The self-test *)

(** C7.  In [Test], the three views are constructed without a [LogicError]:
    (1,2,21) over the 1 x 42 matrix, (13,1) over the 13 x 1 matrix and
    (13,1,21) over the 13 x 21 matrix.  The operation then pads the three
    shapes to rank 3, computes the operation shape (13,2,21), passes the
    compatibility check and returns without an [InvalidArgument], having
    written its four diagnostic lines. *)
Theorem Test_alignment {ElemType Op : Type} (opSum : Op) (zero one : ElemType)
    (st : state Op) :
  let m1 := mkMatrix 1 1 42 in
  let m2 := mkMatrix 2 13 1 in
  let m3 := mkMatrix 3 13 21 in
  let s1 := TensorShapeOf [1; 2; 21]%N in
  let s2 := TensorShapeOf [13; 1]%N in
  let s3 := TensorShapeOf [13; 1; 21]%N in
  let ps := [s1; s2; s3] in
  TensorView_over m1 s1 = Ret (mkTensorView m1 s1)
  /\ TensorView_over m2 s2 = Ret (mkTensorView m2 s2)
  /\ TensorView_over m3 s3 = Ret (mkTensorView m3 s3)
  /\ map GetNumDims (paddedShapes ps) = [3; 3; 3]
  /\ map GetDims (paddedShapes ps) = [[1; 2; 21]; [13; 1; 1]; [13; 1; 21]]%N
  /\ paddedOpDims ps = [13; 2; 21]%N
  /\ compatibility ps = None
  /\ snd (Test opSum zero one st) = Ret tt
  /\ stderr (fst (Test opSum zero one st)) = stderr st ++ traceOf opSum ps.
Proof.
  intros m1 m2 m3 s1 s2 s3 ps.
  assert (TensorView_over m1 s1 = Ret (mkTensorView m1 s1)) as H1
    by (vm_compute; reflexivity).
  assert (TensorView_over m2 s2 = Ret (mkTensorView m2 s2)) as H2
    by (vm_compute; reflexivity).
  assert (TensorView_over m3 s3 = Ret (mkTensorView m3 s3)) as H3
    by (vm_compute; reflexivity).
  assert (compatibility ps = None) as Hc by (vm_compute; reflexivity).
  repeat (split; [first [assumption | vm_compute; reflexivity]|]).
  unfold Test. fold m1 m2 m3 s1 s2 s3.
  unfold bind at 1 2 3. unfold construct. rewrite H1, H2, H3.
  unfold DoSumOf. rewrite DoBinaryOpOf_run.
  unfold participants. simpl views. simpl Pos.eqb. cbv iota.
  unfold GetShape. simpl m_shape. fold ps. rewrite Hc.
  split; reflexivity.
Qed.

(** ** Flattening *)

Lemma mergeable_Forall (k : nat) (opDims : list N) (shapes : list TensorShape) :
  mergeable k opDims shapes = true
  <-> Forall (fun s => contiguousAt s k /\ sameBroadcastStatus s opDims k) shapes.
Proof.
  induction shapes as [|s shapes IH]; simpl.
  - split; [constructor|trivial].
  - assert (CanFlatten s k = true <-> contiguousAt s k) as Hcontig
      by apply Z.eqb_eq.
    assert ((negb (dimAt s k =? nth k opDims 0)%N
             || negb (dimAt s (k - 1) =? nth (k - 1) opDims 0)%N)
            && (negb (dimAt s k =? 1)%N || negb (dimAt s (k - 1) =? 1)%N) = false
            <-> sameBroadcastStatus s opDims k) as Hstatus.
    { unfold sameBroadcastStatus.
      destruct (N.eqb_spec (dimAt s k) (nth k opDims 0%N)),
               (N.eqb_spec (dimAt s (k - 1)) (nth (k - 1) opDims 0%N)),
               (N.eqb_spec (dimAt s k) 1), (N.eqb_spec (dimAt s (k - 1)) 1);
        simpl; intuition congruence. }
    destruct (CanFlatten s k); simpl.
    + destruct (_ && _); simpl.
      * split; [discriminate|]. inversion 1 as [|? ? [_ Hb] _]; subst.
        apply Hstatus in Hb. discriminate.
      * rewrite IH. split.
        -- intros H. constructor; [|exact H].
           split; [now apply Hcontig|now apply Hstatus].
        -- now inversion 1.
    + split; [discriminate|]. inversion 1 as [|? ? [Ha _] _]; subst.
      apply Hcontig in Ha. discriminate.
Qed.

Lemma Flatten_TensorShapeOf (opDims : list N) (k : nat) :
  GetDims (Flatten (TensorShapeOf opDims) k)
  = <[k := SizeT.mul (nth k opDims 0%N) (nth (k - 1) opDims 0%N)]>
      (<[k - 1 := 1%N]> opDims).
Proof. reflexivity. Qed.

Lemma flattenStep_merge (k : nat) (shapes : list TensorShape) (opDims : list N) :
  mergeable k opDims shapes = true ->
  flattenStep (shapes, opDims) k = mergedAt k (shapes, opDims).
Proof. intros H. unfold flattenStep, mergedAt. now rewrite H. Qed.

Lemma flattenStep_keep (k : nat) (shapes : list TensorShape) (opDims : list N) :
  mergeable k opDims shapes = false ->
  flattenStep (shapes, opDims) k = (shapes, opDims).
Proof. intros H. unfold flattenStep. now rewrite H. Qed.

Lemma nth_insert_eq {A : Type} (l : list A) (k : nat) (x d : A) :
  k < length l -> nth k (<[k := x]> l) d = x.
Proof. intros H. now rewrite nth_lookup, list_lookup_insert_eq. Qed.

Lemma nth_insert_ne {A : Type} (l : list A) (j k : nat) (x d : A) :
  j <> k -> nth k (<[j := x]> l) d = nth k l d.
Proof. intros H. now rewrite !nth_lookup, list_lookup_insert_ne. Qed.

Lemma Flatten_rank (s : TensorShape) (k : nat) :
  GetNumDims (Flatten s k) = GetNumDims s.
Proof. unfold GetNumDims, Flatten. simpl. now rewrite !length_insert. Qed.

Lemma Flatten_dimAt (s : TensorShape) (k : nat) :
  1 <= k -> k < GetNumDims s ->
  dimAt (Flatten s k) k = SizeT.mul (dimAt s k) (dimAt s (k - 1))
  /\ dimAt (Flatten s k) (k - 1) = 1%N
  /\ (forall j, j <> k -> j <> k - 1 -> dimAt (Flatten s k) j = dimAt s j).
Proof.
  intros H1 Hk. unfold GetNumDims in Hk. unfold dimAt, Flatten. simpl.
  split; [|split].
  - apply nth_insert_eq. now rewrite length_insert.
  - rewrite nth_insert_ne by lia. apply nth_insert_eq. lia.
  - intros j Hj1 Hj2. now rewrite !nth_insert_ne by lia.
Qed.

Lemma mergedAt_opDims_nth (k : nat) (shapes : list TensorShape) (opDims : list N) :
  1 <= k < length opDims ->
  nth k (snd (mergedAt k (shapes, opDims))) 0%N
  = SizeT.mul (nth k opDims 0%N) (nth (k - 1) opDims 0%N)
  /\ nth (k - 1) (snd (mergedAt k (shapes, opDims))) 0%N = 1%N
  /\ (forall j, j <> k -> j <> k - 1 ->
        nth j (snd (mergedAt k (shapes, opDims))) 0%N = nth j opDims 0%N).
Proof.
  intros Hk. unfold mergedAt. simpl. split; [|split].
  - apply nth_insert_eq. rewrite length_insert. lia.
  - rewrite nth_insert_ne by lia. apply nth_insert_eq. lia.
  - intros j Hj1 Hj2. now rewrite !nth_insert_ne by lia.
Qed.

(** The loop visits the axes from low index upward: its last iteration is
    the one for the highest axis. *)
Lemma flattenLoop_last (dims : nat) (st : list TensorShape * list N) :
  flattenLoop 1 st = st
  /\ flattenLoop (S (S dims)) st = flattenStep (flattenLoop (S dims) st) (S dims).
Proof.
  split; [reflexivity|]. unfold flattenLoop.
  replace (S (S dims) - 1) with (S (dims)) by lia.
  replace (S dims - 1) with dims by lia.
  rewrite seq_S, fold_left_app. reflexivity.
Qed.

(** C4 (as amended).  One iteration of the flattening loop, at axis [k] (the
    loop runs [k] from 1 upward over the shapes as the earlier iterations
    left them): axes [k-1] and [k] are merged if and only if every
    participant is stored contiguously across the two axes and has matching
    broadcast status there (both extents equal those of [opDims], or both
    are 1).  A merge is applied to every participant and to [opDims] at
    once: the extent at [k] becomes the [size_t] product of the two extents,
    which is their product whenever that is below [2^64], and axis [k-1] is
    left with extent 1.  Otherwise nothing changes. *)
Theorem flatten_merges_iff (k : nat) (shapes : list TensorShape) (opDims : list N) :
  1 <= k -> k < length opDims ->
  (forall s, s ∈ shapes -> k < GetNumDims s) ->
  let cond := forall s, s ∈ shapes ->
                contiguousAt s k /\ sameBroadcastStatus s opDims k in
  let st' := flattenStep (shapes, opDims) k in
  (mergeable k opDims shapes = true <-> cond)
  /\ (cond ->
      st' = mergedAt k (shapes, opDims)
      /\ fst st' = map (fun s => Flatten s k) shapes
      /\ (forall s, s ∈ shapes ->
            dimAt (Flatten s k) k = SizeT.mul (dimAt s k) (dimAt s (k - 1))
            /\ ((dimAt s k * dimAt s (k - 1) < SizeT.modulus)%N ->
                dimAt (Flatten s k) k = (dimAt s k * dimAt s (k - 1))%N)
            /\ dimAt (Flatten s k) (k - 1) = 1%N
            /\ GetNumDims (Flatten s k) = GetNumDims s)
      /\ nth k (snd st') 0%N = SizeT.mul (nth k opDims 0%N) (nth (k - 1) opDims 0%N)
      /\ ((nth k opDims 0 * nth (k - 1) opDims 0 < SizeT.modulus)%N ->
          nth k (snd st') 0%N = (nth k opDims 0 * nth (k - 1) opDims 0)%N)
      /\ nth (k - 1) (snd st') 0%N = 1%N
      /\ length (snd st') = length opDims)
  /\ (~ cond -> st' = (shapes, opDims))
  /\ (forall dims st,
        flattenLoop (S (S dims)) st = flattenStep (flattenLoop (S dims) st) (S dims)).
Proof.
  intros H1 Hk Hrank cond st'.
  assert (mergeable k opDims shapes = true <-> cond) as Hiff.
  { rewrite mergeable_Forall, Forall_forall. reflexivity. }
  split; [exact Hiff|]. split.
  - intros Hcond. apply Hiff in Hcond.
    assert (st' = mergedAt k (shapes, opDims)) as Hst
      by now apply flattenStep_merge.
    rewrite Hst.
    destruct (mergedAt_opDims_nth k shapes opDims) as (Hok & Hok1 & _); [lia|].
    split; [reflexivity|]. split; [reflexivity|]. split.
    { intros s Hs. destruct (Flatten_dimAt s k H1 (Hrank s Hs)) as (Ha & Hb & _).
      split; [exact Ha|]. split; [|split; [exact Hb|apply Flatten_rank]].
      intros Hfit. rewrite Ha. now apply SizeT_mul_small. }
    split; [exact Hok|]. split.
    { intros Hfit. rewrite Hok. now apply SizeT_mul_small. }
    split; [exact Hok1|].
    unfold mergedAt. simpl. now rewrite !length_insert.
  - split; [|intros dims st; apply flattenLoop_last].
    intros Hno. apply flattenStep_keep.
    destruct (mergeable k opDims shapes); [|reflexivity].
    exfalso. apply Hno, Hiff. reflexivity.
Qed.

(** Axes 0 and 1 of (2,3), (1,1), (2,3) under the operation shape (2,3). *)
Lemma flatten_merges_iff_witness :
  let shapes := [TensorShapeOf [2; 3]%N; TensorShapeOf [1; 1]%N;
                 TensorShapeOf [2; 3]%N] in
  mergeable 1 [2; 3]%N shapes = true
  <-> (forall s, s ∈ shapes ->
         contiguousAt s 1 /\ sameBroadcastStatus s [2; 3]%N 1).
Proof.
  intros shapes.
  refine (proj1 (flatten_merges_iff 1 shapes [2; 3]%N _ _ _)).
  - lia.
  - simpl. lia.
  - intros s Hs. unfold shapes in Hs.
    repeat (apply elem_of_cons in Hs; destruct Hs as [->|Hs];
            [vm_compute; lia|]).
    now apply elem_of_nil in Hs.
Defined.

(** C4 as stated fails where the [size_t] product wraps around.  The shape
    (5, 14757395258967641294) is accepted over a 6 x 1 matrix; for three
    such views the two axes are contiguous and equal [opDims], so they are
    merged, and the merged extent is 6, not the product of 5 and
    14757395258967641294. *)
Lemma flatten_merges_wraps :
  let s := TensorShapeOf [5; 14757395258967641294]%N in
  let shapes := [s; s; s] in
  let opDims := [5; 14757395258967641294]%N in
  TensorView_over (mkMatrix 1 6 1) s = Ret (mkTensorView (mkMatrix 1 6 1) s)
  /\ paddedShapes shapes = shapes /\ paddedOpDims shapes = opDims
  /\ (forall t, t ∈ shapes ->
        contiguousAt t 1 /\ sameBroadcastStatus t opDims 1)
  /\ fst (flattenStep (shapes, opDims) 1) = map (fun t => Flatten t 1) shapes
  /\ dimAt (Flatten s 1) 1 = 6%N
  /\ dimAt (Flatten s 1) 1 <> (dimAt s 1 * dimAt s 0)%N.
Proof.
  intros s shapes opDims.
  split; [vm_compute; reflexivity|].
  split; [vm_compute; reflexivity|].
  split; [vm_compute; reflexivity|].
  split.
  { intros t Ht. unfold shapes in Ht.
    repeat (apply elem_of_cons in Ht; destruct Ht as [->|Ht];
            [split; [vm_compute; reflexivity|left; split; vm_compute; reflexivity]|]).
    now apply elem_of_nil in Ht. }
  split; [vm_compute; reflexivity|].
  split; [vm_compute; reflexivity|].
  vm_compute. discriminate.
Qed.

Lemma flattenStep_cases (k : nat) (st : list TensorShape * list N) :
  flattenStep st k = st \/ flattenStep st k = mergedAt k st.
Proof.
  destruct st as [shapes opDims]. unfold flattenStep, mergedAt.
  destruct (mergeable k opDims shapes); [right|left]; reflexivity.
Qed.

(** Whatever every merge preserves holds after the flattening loop. *)
Lemma flattenLoop_preserves (I : list TensorShape * list N -> Prop) :
  (forall k st, I st -> I (mergedAt k st)) ->
  forall dims st, I st -> I (flattenLoop dims st).
Proof.
  intros Hmerge dims. unfold flattenLoop.
  induction (seq 1 (dims - 1)) as [|k ks IH]; intros st Hst; simpl; [trivial|].
  apply IH. destruct (flattenStep_cases k st) as [-> | ->]; auto.
Qed.

Lemma flattened_rank (ps : list TensorShape) :
  Forall (fun s => GetNumDims s = maxNumDims ps) (fst (flattened ps))
  /\ length (snd (flattened ps)) = maxNumDims ps.
Proof.
  unfold flattened.
  apply (flattenLoop_preserves
           (fun st => Forall (fun s => GetNumDims s = maxNumDims ps) (fst st)
                      /\ length (snd st) = maxNumDims ps)).
  - intros k [shapes opDims] [Hs Ho]. unfold mergedAt. simpl in *. split.
    + rewrite Forall_forall in *. intros s Hs'.
      apply list_elem_of_fmap in Hs'. destruct Hs' as (s0 & -> & Hs0).
      rewrite Flatten_rank. auto.
    + now rewrite !length_insert.
  - simpl. split.
    + rewrite Forall_forall. apply paddedShapes_rank.
    + apply operationShape_length.
Qed.

(** ** Removing singleton axes *)

Lemma allSingleton_Forall (k : nat) (shapes : list TensorShape) :
  allSingleton k shapes = true <-> Forall (fun s => dimAt s k = 1%N) shapes.
Proof.
  induction shapes as [|s shapes IH]; simpl.
  - split; [constructor|trivial].
  - destruct (N.eqb_spec (dimAt s k) 1) as [He|Hne]; simpl.
    + rewrite IH. split; [now constructor|now inversion 1].
    + split; [discriminate|]. now inversion 1.
Qed.

Lemma toDropOf_length (dims : nat) (shapes : list TensorShape) :
  length (toDropOf dims shapes) = dims.
Proof. unfold toDropOf. now rewrite length_map, length_seq. Qed.

Lemma toDropOf_nth (dims : nat) (shapes : list TensorShape) (k : nat) :
  k < dims -> nth k (toDropOf dims shapes) false = allSingleton k shapes.
Proof.
  intros H. unfold toDropOf.
  rewrite nth_lookup, list_lookup_fmap, lookup_seq_lt by trivial. reflexivity.
Qed.

(** What stays after [dropMasked] are the entries whose flag is not set, in
    their order. *)
Lemma dropMasked_filter {A : Type} (toDrop : list bool) (l : list A) :
  length l <= length toDrop ->
  dropMasked toDrop l
  = map snd (List.filter (fun p => negb (fst p)) (combine toDrop l)).
Proof.
  revert l. induction toDrop as [|b toDrop IH]; intros [|x l] Hlen; simpl in *;
    try reflexivity; try lia.
  destruct b; simpl; rewrite IH by lia; reflexivity.
Qed.

Lemma dropMasked_length {A B : Type} (toDrop : list bool) (l1 : list A) (l2 : list B) :
  length l1 = length l2 ->
  length (dropMasked toDrop l1) = length (dropMasked toDrop l2).
Proof.
  revert l1 l2.
  induction toDrop as [|b toDrop IH]; intros [|x l1] [|y l2] Hlen; simpl in *;
    try reflexivity; try lia.
  destruct b; simpl; rewrite (IH l1 l2) by lia; reflexivity.
Qed.

Lemma dropMasked_all {A : Type} (toDrop : list bool) (l : list A) :
  Forall (fun b => b = true) toDrop -> length l <= length toDrop ->
  dropMasked toDrop l = [].
Proof.
  intros Hall. revert l.
  induction Hall as [|b toDrop -> _ IH]; intros [|x l] Hlen; simpl in *;
    try reflexivity; try lia.
  apply IH. lia.
Qed.

(** *** A fully scalar operation *)

Lemma nth_replicate_lt {A : Type} (n k : nat) (x d : A) :
  k < n -> nth k (replicate n x) d = x.
Proof. intros H. now rewrite nth_lookup, lookup_replicate_2. Qed.

Lemma insert_replicate_one (n k : nat) (v : N) :
  (k < n -> v = 1%N) -> <[k := v]> (replicate n 1%N) = replicate n 1%N.
Proof.
  intros Hv. destruct (Nat.lt_ge_cases k n) as [Hlt|Hge].
  - rewrite (Hv Hlt). apply insert_replicate.
  - apply list_insert_ge. now rewrite length_replicate.
Qed.

Lemma scalar_padded (ps : list TensorShape) (s : TensorShape) :
  (forall s, s ∈ ps -> Forall (fun d => d = 1%N) (m_dims s)) ->
  s ∈ paddedShapes ps -> m_dims s = replicate (maxNumDims ps) 1%N.
Proof.
  intros Hone Hs. symmetry. apply replicate_as_Forall. split.
  - now apply paddedShapes_rank.
  - unfold paddedShapes, padAll in Hs.
    apply list_elem_of_fmap in Hs. destruct Hs as (s0 & -> & Hs0).
    unfold Pad. simpl. apply Forall_app. split.
    + eapply Forall_impl; [exact (Hone s0 Hs0)|]. simpl. auto.
    + rewrite Forall_forall. intros d Hd.
      apply elem_of_replicate in Hd. now destruct Hd.
Qed.

Lemma scalar_opDims (ps : list TensorShape) :
  (forall s, s ∈ ps -> Forall (fun d => d = 1%N) (m_dims s)) ->
  paddedOpDims ps = replicate (maxNumDims ps) 1%N.
Proof.
  intros Hone. symmetry. apply replicate_as_Forall.
  split; [apply operationShape_length|].
  rewrite Forall_forall. intros d Hd.
  unfold paddedOpDims, operationShape in Hd.
  apply list_elem_of_fmap in Hd. destruct Hd as (k & -> & Hk).
  apply elem_of_seq in Hk.
  assert (k < maxNumDims ps) as Hk' by lia.
  destruct (paddedOpDims_attained ps k Hk') as (s & Hs & Hatt).
  rewrite opDimAt_max, <- (paddedOpDims_nth ps k Hk'), <- Hatt.
  unfold dimAt. rewrite (scalar_padded ps s Hone Hs).
  symmetry. now apply nth_replicate_lt.
Qed.

Lemma scalar_flattened (ps : list TensorShape) :
  (forall s, s ∈ ps -> Forall (fun d => d = 1%N) (m_dims s)) ->
  Forall (fun s => m_dims s = replicate (maxNumDims ps) 1%N) (fst (flattened ps))
  /\ snd (flattened ps) = replicate (maxNumDims ps) 1%N.
Proof.
  intros Hone. unfold flattened.
  apply (flattenLoop_preserves
           (fun st => Forall (fun s => m_dims s = replicate (maxNumDims ps) 1%N) (fst st)
                      /\ snd st = replicate (maxNumDims ps) 1%N)).
  - intros k [shapes opDims] [Hs Ho]. unfold mergedAt. simpl in *. split.
    + rewrite Forall_forall in *. intros s Hs'.
      apply list_elem_of_fmap in Hs'. destruct Hs' as (s0 & -> & Hs0).
      unfold Flatten, dimAt. simpl. rewrite (Hs s0 Hs0).
      rewrite (insert_replicate_one _ (k - 1)) by trivial.
      apply insert_replicate_one. intros Hk.
      rewrite !nth_replicate_lt by lia. apply SizeT_mul_small. reflexivity.
    + subst opDims.
      rewrite (insert_replicate_one _ (k - 1)) by trivial.
      apply insert_replicate_one. intros Hk.
      rewrite !nth_replicate_lt by lia. apply SizeT_mul_small. reflexivity.
  - simpl. split; [|now apply scalar_opDims].
    rewrite Forall_forall. intros s Hs. now apply scalar_padded.
Qed.

(** C5.  After flattening, the flag [toDrop[k]] of an axis is set if and
    only if every participant, the output included, has extent exactly 1
    there; every participant and [opDims] are then filtered with this one
    mask, which removes exactly the flagged axes and keeps the others in
    order.  When all extents of all participants are 1 the operation passes
    the compatibility check and every final shape, and [opDims], has rank
    0. *)
Theorem drop_singleton_axes (ps : list TensorShape) :
  let dims := maxNumDims ps in
  let shapes := fst (flattened ps) in
  let opDims := snd (flattened ps) in
  let toDrop := dropMask ps in
  let kept {A : Type} (l : list A) :=
    map snd (List.filter (fun p => negb (fst p)) (combine toDrop l)) in
  length toDrop = dims
  /\ (forall k, k < dims ->
        (nth k toDrop false = true <-> forall s, s ∈ shapes -> dimAt s k = 1%N))
  /\ fst (dropped ps) = map (fun s => DropSingletonDims s toDrop) shapes
  /\ (forall s, s ∈ shapes -> GetDims (DropSingletonDims s toDrop) = kept (m_dims s))
  /\ snd (dropped ps) = kept opDims
  /\ ((forall s, s ∈ ps -> Forall (fun d => d = 1%N) (m_dims s)) ->
      compatibility ps = None
      /\ (forall s, s ∈ fst (aligned ps) -> GetNumDims s = 0)
      /\ snd (aligned ps) = []).
Proof.
  intros dims shapes opDims toDrop kept.
  destruct (flattened_rank ps) as [Hrank Hlen].
  fold shapes in Hrank. fold opDims dims in Hlen. rewrite Forall_forall in Hrank.
  assert (length toDrop = dims) as Hmask by apply toDropOf_length.
  split; [exact Hmask|]. split.
  { intros k Hk. unfold toDrop, dropMask. fold shapes dims.
    rewrite toDropOf_nth, allSingleton_Forall, Forall_forall by trivial.
    reflexivity. }
  split; [reflexivity|]. split.
  { intros s Hs. unfold GetDims, DropSingletonDims, kept. simpl.
    apply dropMasked_filter. specialize (Hrank s Hs).
    unfold GetNumDims in Hrank. fold dims in Hrank. lia. }
  split.
  { unfold dropped, GetDims, DropSingletonDims, kept. simpl.
    apply dropMasked_filter. fold opDims toDrop. lia. }
  intros Hone.
  destruct (scalar_flattened ps Hone) as [Hfl Hop].
  fold shapes in Hfl. fold opDims dims in Hop. rewrite Forall_forall in Hfl.
  assert (Forall (fun b => b = true) toDrop) as Hall.
  { rewrite Forall_forall. intros b Hb. unfold toDrop, dropMask, toDropOf in Hb.
    apply list_elem_of_fmap in Hb. destruct Hb as (k & -> & Hk).
    apply elem_of_seq in Hk. apply allSingleton_Forall, Forall_forall.
    intros s Hs. unfold dimAt. rewrite (Hfl s Hs).
    apply nth_replicate_lt. lia. }
  split; [|split].
  - apply compatibility_None. intros k s Hk Hs.
    unfold dimAt at 1. rewrite (scalar_padded ps s Hone Hs).
    rewrite nth_replicate_lt by trivial. reflexivity.
  - intros s Hs. unfold aligned, dropped in Hs. simpl in Hs.
    apply list_elem_of_fmap in Hs. destruct Hs as (s1 & -> & Hs1).
    apply list_elem_of_fmap in Hs1. destruct Hs1 as (s0 & -> & Hs0).
    unfold GetNumDims, WithBroadcastStrides, DropSingletonDims. simpl.
    fold toDrop. rewrite dropMasked_all; [reflexivity|exact Hall|].
    specialize (Hrank s0 Hs0). unfold GetNumDims in Hrank. fold dims in Hrank. lia.
  - unfold aligned, dropped, GetDims, DropSingletonDims. simpl.
    fold toDrop opDims. apply dropMasked_all; [exact Hall|lia].
Qed.

(** Three all-ones participants of ranks 2, 1 and 0. *)
Lemma drop_singleton_axes_witness :
  let ps := [TensorShapeOf [1; 1]%N; TensorShapeOf [1]%N; TensorShapeOf []] in
  compatibility ps = None
  /\ (forall s, s ∈ fst (aligned ps) -> GetNumDims s = 0)
  /\ snd (aligned ps) = [].
Proof.
  intros ps.
  refine (proj2 (proj2 (proj2 (proj2 (proj2 (drop_singleton_axes ps))))) _).
  intros s Hs. unfold ps in Hs.
  repeat (apply elem_of_cons in Hs; destruct Hs as [->|Hs];
          [simpl; repeat constructor|]).
  now apply elem_of_nil in Hs.
Defined.

(** ** Broadcast strides *)

Lemma Pad_hasStrides (s : TensorShape) (dims : nat) :
  hasStrides s -> hasStrides (Pad s dims).
Proof.
  unfold hasStrides, Pad. simpl. intros H.
  rewrite !length_app, !length_replicate. lia.
Qed.

Lemma Flatten_hasStrides (s : TensorShape) (k : nat) :
  hasStrides s -> hasStrides (Flatten s k).
Proof.
  unfold hasStrides, Flatten. simpl. intros H. now rewrite !length_insert.
Qed.

Lemma DropSingletonDims_hasStrides (s : TensorShape) (toDrop : list bool) :
  hasStrides s -> hasStrides (DropSingletonDims s toDrop).
Proof.
  unfold hasStrides, DropSingletonDims. simpl. apply dropMasked_length.
Qed.

Lemma dropped_hasStrides (ps : list TensorShape) (s : TensorShape) :
  (forall s, s ∈ ps -> hasStrides s) ->
  s ∈ fst (dropped ps) -> hasStrides s.
Proof.
  intros Hps Hs.
  assert (Forall hasStrides (fst (flattened ps))) as Hfl.
  { unfold flattened.
    apply (flattenLoop_preserves (fun st => Forall hasStrides (fst st))).
    - intros k [shapes opDims] Hst. unfold mergedAt. simpl in *.
      rewrite Forall_forall in *. intros t Ht.
      apply list_elem_of_fmap in Ht. destruct Ht as (t0 & -> & Ht0).
      apply Flatten_hasStrides. auto.
    - simpl. rewrite Forall_forall. intros t Ht.
      unfold paddedShapes, padAll in Ht.
      apply list_elem_of_fmap in Ht. destruct Ht as (t0 & -> & Ht0).
      apply Pad_hasStrides. auto. }
  rewrite Forall_forall in Hfl. unfold dropped in Hs. simpl in Hs.
  apply list_elem_of_fmap in Hs. destruct Hs as (s0 & -> & Hs0).
  apply DropSingletonDims_hasStrides. auto.
Qed.

Lemma WithBroadcastStrides_strideAt (s : TensorShape) (j : nat) :
  hasStrides s -> j < GetNumDims s ->
  strideAt (WithBroadcastStrides s) j
  = if (dimAt s j =? 1)%N then 0%Z else strideAt s j.
Proof.
  unfold hasStrides, GetNumDims, strideAt, dimAt, WithBroadcastStrides. simpl.
  intros Hlen Hj.
  destruct (lookup_lt_is_Some_2 (m_dims s) j Hj) as [d Hd].
  destruct (lookup_lt_is_Some_2 (m_strides s) j) as [z Hz]; [lia|].
  rewrite !nth_lookup, lookup_zip_with, Hd, Hz. reflexivity.
Qed.

(** ** Reordering the participants *)

Lemma fold_left_Permutation {A B : Type} (f : A -> B -> A) (l l' : list B) :
  (forall a x y, f (f a x) y = f (f a y) x) ->
  Permutation l l' -> forall a, fold_left f l a = fold_left f l' a.
Proof.
  intros Hcomm. induction 1 as [|x l l' _ IH|x y l|l l' l'' _ IH1 _ IH2];
    intros a; simpl.
  - reflexivity.
  - apply IH.
  - now rewrite Hcomm.
  - now rewrite IH1.
Qed.

Lemma bool_eq_of_iff (b1 b2 : bool) :
  (b1 = true <-> b2 = true) -> b1 = b2.
Proof. destruct b1, b2; intuition congruence. Qed.

Lemma maxNumDims_Permutation (ps ps' : list TensorShape) :
  Permutation ps ps' -> maxNumDims ps = maxNumDims ps'.
Proof.
  intros H. unfold maxNumDims. apply fold_left_Permutation; [|exact H].
  intros a x y.
  destruct (Nat.ltb_spec a (GetNumDims x)), (Nat.ltb_spec a (GetNumDims y));
    repeat match goal with |- context [?n <? ?m] => destruct (Nat.ltb_spec n m) end;
    lia.
Qed.

Lemma opDimAt_Permutation (shapes shapes' : list TensorShape) (k : nat) :
  Permutation shapes shapes' -> opDimAt shapes k = opDimAt shapes' k.
Proof.
  intros H. unfold opDimAt. apply fold_left_Permutation; [|exact H].
  intros a x y. lia.
Qed.

Lemma paddedShapes_Permutation (ps ps' : list TensorShape) :
  Permutation ps ps' -> Permutation (paddedShapes ps) (paddedShapes ps').
Proof.
  intros H. unfold paddedShapes, padAll.
  rewrite (maxNumDims_Permutation ps ps' H). now apply Permutation_map.
Qed.

Lemma paddedOpDims_Permutation (ps ps' : list TensorShape) :
  Permutation ps ps' -> paddedOpDims ps = paddedOpDims ps'.
Proof.
  intros H. unfold paddedOpDims, operationShape.
  rewrite (maxNumDims_Permutation ps ps' H).
  apply map_ext. intros k.
  apply opDimAt_Permutation. now apply paddedShapes_Permutation.
Qed.

Lemma compatibility_Permutation (ps ps' : list TensorShape) :
  Permutation ps ps' -> compatibility ps = None -> compatibility ps' = None.
Proof.
  intros H. rewrite !compatibility_None.
  rewrite <- (maxNumDims_Permutation ps ps' H),
          <- (paddedOpDims_Permutation ps ps' H).
  intros Hc k s Hk Hs. apply Hc; [trivial|].
  eapply elem_of_Permutation_proper; [apply paddedShapes_Permutation|];
    eassumption.
Qed.

Lemma mergeable_Permutation (k : nat) (opDims : list N)
    (shapes shapes' : list TensorShape) :
  Permutation shapes shapes' ->
  mergeable k opDims shapes = mergeable k opDims shapes'.
Proof.
  intros H. apply bool_eq_of_iff. rewrite !mergeable_Forall.
  split; apply Permutation_Forall; [trivial|now symmetry].
Qed.

Lemma allSingleton_Permutation (k : nat) (shapes shapes' : list TensorShape) :
  Permutation shapes shapes' ->
  allSingleton k shapes = allSingleton k shapes'.
Proof.
  intros H. apply bool_eq_of_iff. rewrite !allSingleton_Forall.
  split; apply Permutation_Forall; [trivial|now symmetry].
Qed.

Lemma flattenStep_Permutation (k : nat) (opDims : list N)
    (shapes shapes' : list TensorShape) :
  Permutation shapes shapes' ->
  Permutation (fst (flattenStep (shapes, opDims) k))
              (fst (flattenStep (shapes', opDims) k))
  /\ snd (flattenStep (shapes, opDims) k) = snd (flattenStep (shapes', opDims) k).
Proof.
  intros H. unfold flattenStep.
  rewrite (mergeable_Permutation k opDims shapes shapes' H).
  destruct (mergeable k opDims shapes'); simpl.
  - split; [now apply Permutation_map|reflexivity].
  - split; [trivial|reflexivity].
Qed.

Lemma fold_flattenStep_Permutation (ks : list nat) (opDims : list N)
    (shapes shapes' : list TensorShape) :
  Permutation shapes shapes' ->
  Permutation (fst (fold_left flattenStep ks (shapes, opDims)))
              (fst (fold_left flattenStep ks (shapes', opDims)))
  /\ snd (fold_left flattenStep ks (shapes, opDims))
     = snd (fold_left flattenStep ks (shapes', opDims)).
Proof.
  revert opDims shapes shapes'.
  induction ks as [|k ks IH]; intros opDims shapes shapes' H; cbn [fold_left].
  - split; [trivial|reflexivity].
  - destruct (flattenStep_Permutation k opDims shapes shapes' H) as [Hp He].
    destruct (flattenStep (shapes, opDims) k) as [s1 o1].
    destruct (flattenStep (shapes', opDims) k) as [s2 o2].
    simpl in *. subst o2. now apply IH.
Qed.

Lemma flattened_Permutation (ps ps' : list TensorShape) :
  Permutation ps ps' ->
  Permutation (fst (flattened ps)) (fst (flattened ps'))
  /\ snd (flattened ps) = snd (flattened ps').
Proof.
  intros H. unfold flattened, flattenLoop.
  rewrite <- (maxNumDims_Permutation ps ps' H),
          <- (paddedOpDims_Permutation ps ps' H).
  apply fold_flattenStep_Permutation. now apply paddedShapes_Permutation.
Qed.

Lemma dropMask_Permutation (ps ps' : list TensorShape) :
  Permutation ps ps' -> dropMask ps = dropMask ps'.
Proof.
  intros H. unfold dropMask, toDropOf.
  rewrite <- (maxNumDims_Permutation ps ps' H).
  apply map_ext. intros k. apply allSingleton_Permutation.
  now apply flattened_Permutation.
Qed.

(** C8.  For participants that pass the compatibility check, any reordering
    of them passes it too and ends with the same final [opDims]; the final
    shapes are the same shapes in the new order.  Each final shape is
    [WithBroadcastStrides] of that participant's own shape after singleton
    removal, whatever the order. *)
Theorem aligned_opDims_order_independent (ps ps' : list TensorShape) :
  Permutation ps ps' ->
  compatibility ps = None ->
  compatibility ps' = None
  /\ snd (aligned ps') = snd (aligned ps)
  /\ Permutation (fst (dropped ps)) (fst (dropped ps'))
  /\ Permutation (fst (aligned ps)) (fst (aligned ps'))
  /\ fst (aligned ps) = map WithBroadcastStrides (fst (dropped ps))
  /\ fst (aligned ps') = map WithBroadcastStrides (fst (dropped ps')).
Proof.
  intros H Hc.
  destruct (flattened_Permutation ps ps' H) as [Hfs Hfo].
  pose proof (dropMask_Permutation ps ps' H) as Hmask.
  assert (Permutation (fst (dropped ps)) (fst (dropped ps'))) as Hdrop.
  { unfold dropped. simpl. rewrite <- Hmask. now apply Permutation_map. }
  split; [now apply (compatibility_Permutation ps ps')|].
  split.
  { unfold aligned, dropped. simpl. now rewrite <- Hmask, <- Hfo. }
  split; [exact Hdrop|].
  split; [|split; reflexivity].
  unfold aligned. simpl fst. now apply Permutation_map.
Qed.

(** The self-test participants with the two inputs exchanged. *)
Lemma aligned_opDims_order_independent_witness :
  let s1 := TensorShapeOf [1; 2; 21]%N in
  let s2 := TensorShapeOf [13; 1]%N in
  let s3 := TensorShapeOf [13; 1; 21]%N in
  snd (aligned [s2; s1; s3]) = snd (aligned [s1; s2; s3]).
Proof.
  intros s1 s2 s3.
  refine (proj1 (proj2 (aligned_opDims_order_independent
                          [s1; s2; s3] [s2; s1; s3] _ _))).
  - apply perm_swap.
  - reflexivity.
Defined.

(** ** More on construction *)

Lemma reshape_Ret_inv (other : TensorView) (shape : TensorShape) (v : TensorView) :
  TensorView_reshape other shape = Ret v ->
  v = {| m_sob := m_sob other; m_shape := shape |}.
Proof.
  unfold TensorView_reshape.
  destruct (rowLoop _ _ _) as [rowDim rest].
  destruct (_ || _); [discriminate|]. now intros [= <-].
Qed.

Lemma reshape_sob_only (v w : TensorView) (shape : TensorShape) :
  m_sob v = m_sob w -> TensorView_reshape v shape = TensorView_reshape w shape.
Proof. intros H. unfold TensorView_reshape. now rewrite H. Qed.

(** X1.  Reshaping looks at the storage object only, never at the shape the
    view had: a view obtained by reshaping can be reshaped again exactly as
    the original view could, and reshaping it to its own shape returns it
    unchanged. *)
Theorem reshape_compose (other v : TensorView) (s1 s2 : TensorShape) :
  TensorView_reshape other s1 = Ret v ->
  TensorView_reshape v s2 = TensorView_reshape other s2
  /\ TensorView_reshape v (GetShape v) = Ret v.
Proof.
  intros H. pose proof (reshape_Ret_inv other s1 v H) as Hv.
  assert (m_sob v = m_sob other) as Hsob by now subst v.
  split; [now apply reshape_sob_only|].
  rewrite (reshape_sob_only v other) by trivial.
  subst v. exact H.
Qed.

(** The self-test's first view, reshaped to (2,21) and to itself. *)
Lemma reshape_compose_witness :
  let m1 := mkMatrix 1 1 42 in
  let v := mkTensorView m1 (TensorShapeOf [1; 2; 21]%N) in
  TensorView_reshape v (TensorShapeOf [2; 21]%N)
  = TensorView_reshape (TensorView_cast m1) (TensorShapeOf [2; 21]%N)
  /\ TensorView_reshape v (GetShape v) = Ret v.
Proof.
  intros m1 v.
  refine (reshape_compose (TensorView_cast m1) v (TensorShapeOf [1; 2; 21]%N)
                          (TensorShapeOf [2; 21]%N) _).
  vm_compute. reflexivity.
Defined.

(** X2.  Two edge cases of the reshaping constructor.  Over a storage object
    with no rows every shape is rejected: [rowDim] starts at 1 and the first
    loop never runs.  The shape with no axes is accepted exactly over a
    1 x 1 storage object. *)
Theorem reshape_edge_cases (other : TensorView) (shape : TensorShape) :
  let numRows := GetNumRows (m_sob other) in
  let numCols := GetNumCols (m_sob other) in
  (numRows = 0%N ->
   TensorView_reshape other shape = Throw (LogicError shape numRows numCols))
  /\ (m_dims shape = [] ->
      ((exists v, TensorView_reshape other shape = Ret v)
       <-> numRows = 1%N /\ numCols = 1%N)).
Proof.
  intros numRows numCols. unfold TensorView_reshape. fold numRows numCols.
  split.
  - intros ->.
    assert (rowLoop 0 1 (m_dims shape) = (1%N, m_dims shape)) as ->
      by now destruct (m_dims shape).
    reflexivity.
  - intros ->. unfold colLoop. cbn [rowLoop fold_left].
    destruct (N.eqb_spec 1 numRows) as [Hr|Hr],
             (N.eqb_spec 1 numCols) as [Hc|Hc]; cbn [negb orb].
    + split; [intros _; split; congruence|intros _; eauto].
    + split; [intros [v Hv]; discriminate|intros [_ H]; congruence].
    + split; [intros [v Hv]; discriminate|intros [H _]; congruence].
    + split; [intros [v Hv]; discriminate|intros [H _]; congruence].
Qed.

(** A 0 x 5 matrix and the shape (0,5). *)
Lemma reshape_edge_cases_witness :
  TensorView_reshape (TensorView_cast (mkMatrix 1 0 5)) (TensorShapeOf [0; 5]%N)
  = Throw (LogicError (TensorShapeOf [0; 5]%N) 0 5).
Proof.
  refine (proj1 (reshape_edge_cases (TensorView_cast (mkMatrix 1 0 5))
                                    (TensorShapeOf [0; 5]%N)) _).
  reflexivity.
Defined.

(** X3.  Casting a matrix and reshaping the view to the shape it already
    has (rows, columns) returns the cast view when the matrix has at least
    one row, and throws when it has none ([size_t] extents). *)
Theorem reshape_cast_own_shape (sob : Matrix) :
  (GetNumRows sob < SizeT.modulus)%N ->
  (GetNumCols sob < SizeT.modulus)%N ->
  let v := TensorView_cast sob in
  ((1 <= GetNumRows sob)%N -> TensorView_reshape v (GetShape v) = Ret v)
  /\ (GetNumRows sob = 0%N ->
      TensorView_reshape v (GetShape v)
      = Throw (LogicError (GetShape v) 0 (GetNumCols sob))).
Proof.
  intros Hr Hc v. destruct sob as [addr rows cols]. simpl in *.
  unfold v, TensorView_reshape, TensorView_cast, GetShape. simpl.
  assert (SizeT.mul 1 rows = rows) as Hm1
    by (rewrite SizeT_mul_small; lia).
  assert (SizeT.mul 1 cols = cols) as Hm2
    by (rewrite SizeT_mul_small; lia).
  split.
  - intros Hpos. destruct (N.ltb_spec 1 rows) as [Hlt|Hge].
    + rewrite Hm1. destruct (N.ltb_spec rows rows); [lia|].
      unfold colLoop. simpl. rewrite Hm2, !N.eqb_refl. reflexivity.
    + assert (rows = 1%N) as -> by lia.
      unfold colLoop. simpl.
      change (SizeT.mul 1 1) with 1%N. rewrite Hm2, N.eqb_refl. reflexivity.
  - intros ->. reflexivity.
Qed.

(** The 13 x 21 output matrix of the self-test. *)
Lemma reshape_cast_own_shape_witness :
  let v := TensorView_cast (mkMatrix 3 13 21) in
  TensorView_reshape v (GetShape v) = Ret v.
Proof.
  intros v.
  refine (proj1 (reshape_cast_own_shape (mkMatrix 3 13 21) _ _) _).
  - reflexivity.
  - reflexivity.
  - simpl. lia.
Defined.

(** X4.  Without wrap-around (extents at least 1, their product below
    [2^64]) an accepted shape has exactly as many elements as the storage
    object: the product of its extents is rows times columns. *)
Theorem reshape_element_count (other v : TensorView) (shape : TensorShape) :
  Forall (fun d => 1 <= d)%N (m_dims shape) ->
  (product (m_dims shape) < SizeT.modulus)%N ->
  TensorView_reshape other shape = Ret v ->
  product (m_dims (GetShape v))
  = (GetNumRows (m_sob v) * GetNumCols (m_sob v))%N.
Proof.
  intros Hdims Hfit Hv.
  pose proof (reshape_Ret_inv other shape v Hv) as ->. simpl.
  unfold TensorView_reshape in Hv.
  pose proof (rowLoop_factors (GetNumRows (m_sob other)) (GetNumCols (m_sob other))
                (m_dims shape) 1 Hdims) as Hloop.
  destruct (rowLoop _ _ _) as [rowDim rest]. simpl in Hloop.
  destruct (N.eqb_spec rowDim (GetNumRows (m_sob other))) as [Hr|];
    [|discriminate].
  destruct (N.eqb_spec (colLoop rest) (GetNumCols (m_sob other))) as [Hc|];
    [|discriminate].
  destruct Hloop as [Hex _]; [lia|lia|].
  destruct Hex as (i & _ & H1 & H2); [now split|].
  rewrite (product_take_drop i). nia.
Qed.

(** The self-test's first view: 1 * 2 * 21 = 1 * 42. *)
Lemma reshape_element_count_witness :
  product [1; 2; 21]%N = (1 * 42)%N.
Proof.
  refine (reshape_element_count (TensorView_cast (mkMatrix 1 1 42))
            (mkTensorView (mkMatrix 1 1 42) (TensorShapeOf [1; 2; 21]%N))
            (TensorShapeOf [1; 2; 21]%N) _ _ _).
  - simpl. repeat constructor; lia.
  - reflexivity.
  - vm_compute. reflexivity.
Defined.

(** ** More on the compatibility check *)

(** Two extents that both match an upper bound of theirs match each
    other. *)
Lemma Matches_via_bound (d1 d2 opDim : N) :
  Matches d1 opDim = true -> Matches d2 opDim = true ->
  (d1 <= opDim)%N -> (d2 <= opDim)%N -> Matches d1 d2 = true.
Proof.
  unfold Matches. intros H1 H2 Hle1 Hle2.
  destruct (N.eqb_spec d1 1), (N.eqb_spec d2 1), (N.eqb_spec d1 d2),
           (N.eqb_spec opDim 1), (N.eqb_spec d1 opDim), (N.eqb_spec d2 opDim);
    simpl in *; trivial; try discriminate; lia.
Qed.

Lemma Matches_sym (d1 d2 : N) : Matches d1 d2 = Matches d2 d1.
Proof.
  unfold Matches. rewrite (N.eqb_sym d1 d2).
  destruct (d1 =? 1)%N, (d2 =? 1)%N; reflexivity.
Qed.

(** X5.  The check passes exactly when the padded participants are pairwise
    compatible at every axis: any two extents at the same axis are equal or
    one of them is 1.  No assumption on the extents is needed. *)
Theorem compatibility_pairwise (ps : list TensorShape) :
  compatibility ps = None
  <-> (forall k p q, k < maxNumDims ps ->
         p ∈ paddedShapes ps -> q ∈ paddedShapes ps ->
         Matches (dimAt p k) (dimAt q k) = true).
Proof.
  rewrite compatibility_None. split.
  - intros Hc k p q Hk Hp Hq.
    apply (Matches_via_bound _ _ (nth k (paddedOpDims ps) 0%N)).
    + now apply Hc.
    + now apply Hc.
    + now apply paddedOpDims_ge.
    + now apply paddedOpDims_ge.
  - intros Hpair k s Hk Hs.
    destruct (paddedOpDims_attained ps k Hk) as (q & Hq & <-).
    now apply Hpair.
Qed.

Lemma checkParticipants_first (k : nat) (opDims : list N)
    (shapes : list TensorShape) (e : exception) :
  checkParticipants k opDims shapes = Some e ->
  exists i s, shapes !! i = Some s
              /\ Matches (dimAt s k) (nth k opDims 0%N) = false
              /\ e = InvalidArgument k (dimAt s k) s opDims
              /\ (forall i' s', i' < i -> shapes !! i' = Some s' ->
                    Matches (dimAt s' k) (nth k opDims 0%N) = true).
Proof.
  induction shapes as [|s shapes IH]; simpl; [discriminate|].
  destruct (Matches (dimAt s k) (nth k opDims 0%N)) eqn:Hm; simpl.
  - intros H. destruct (IH H) as (i & t & Hi & Ht & He & Hbefore).
    exists (S i), t. repeat split; trivial.
    intros [|i'] s' Hlt Hs'; simpl in Hs'.
    + now injection Hs' as <-.
    + apply (Hbefore i'); [lia|trivial].
  - intros [= <-]. exists 0, s. repeat split; trivial. intros i' s' Hlt. lia.
Qed.

Lemma checkAxes_seq_first (n m : nat) (opDims : list N)
    (shapes : list TensorShape) (e : exception) :
  checkAxes (seq n m) opDims shapes = Some e ->
  exists k i s, n <= k < n + m
                /\ shapes !! i = Some s
                /\ Matches (dimAt s k) (nth k opDims 0%N) = false
                /\ e = InvalidArgument k (dimAt s k) s opDims
                /\ (forall i' s', i' < i -> shapes !! i' = Some s' ->
                      Matches (dimAt s' k) (nth k opDims 0%N) = true)
                /\ (forall k' s', n <= k' < k -> s' ∈ shapes ->
                      Matches (dimAt s' k') (nth k' opDims 0%N) = true).
Proof.
  revert n. induction m as [|m IH]; intros n; simpl; [discriminate|].
  destruct (checkParticipants n opDims shapes) as [e'|] eqn:Hn.
  - intros [= <-]. apply checkParticipants_first in Hn.
    destruct Hn as (i & s & Hi & Hs & He & Hbefore).
    exists n, i, s. repeat split; trivial; lia.
  - intros H. destruct (IH (S n) H) as (k & i & s & Hk & Hi & Hs & He & Hb1 & Hb2).
    exists k, i, s. repeat split; trivial; try lia.
    intros k' s' Hk' Hs'.
    destruct (Nat.eq_dec k' n) as [->|Hne].
    + apply checkParticipants_None in Hn. rewrite Forall_forall in Hn. auto.
    + apply Hb2; [lia|trivial].
Qed.

(** X6.  When the binary operation throws, the exception reports the first
    offending pair in loop order: the lowest axis at which some participant
    fails [Matches], and at that axis the first such participant in the
    order first input, second input, output. *)
Theorem DoBinaryOpOf_reports_first {ElemType Op : Type} (st : state Op)
    (this a b : positive) (beta alpha : ElemType) (op : Op) (e : exception) :
  let ps := participants st this a b in
  let opDims := paddedOpDims ps in
  snd (DoBinaryOpOf this beta a b alpha op st) = Throw e ->
  exists k i s,
    k < maxNumDims ps /\ paddedShapes ps !! i = Some s
    /\ e = InvalidArgument k (dimAt s k) s opDims
    /\ Matches (dimAt s k) (nth k opDims 0%N) = false
    /\ (forall k' s', k' < k -> s' ∈ paddedShapes ps ->
          Matches (dimAt s' k') (nth k' opDims 0%N) = true)
    /\ (forall i' s', i' < i -> paddedShapes ps !! i' = Some s' ->
          Matches (dimAt s' k) (nth k opDims 0%N) = true).
Proof.
  intros ps opDims. rewrite DoBinaryOpOf_run. fold ps.
  destruct (compatibility ps) as [e'|] eqn:Hc; simpl; [|discriminate].
  intros [= <-]. unfold compatibility, checkDims in Hc.
  apply checkAxes_seq_first in Hc.
  destruct Hc as (k & i & s & Hk & Hi & Hs & He & Hb1 & Hb2).
  exists k, i, s. repeat split; trivial; try lia.
  intros k' s' Hk' Hs'. apply Hb2; [lia|trivial].
Qed.

(** Inputs (3,7) and (5,7) with output (5,2): axis 0 fails for the first
    input and axis 1 for the output; the first input at axis 0 is
    reported. *)
Lemma DoBinaryOpOf_reports_first_witness :
  let st : state unit :=
    mkState (fun v => if Pos.eqb v 1 then TensorView_cast (mkMatrix 1 3 7)
                      else if Pos.eqb v 2 then TensorView_cast (mkMatrix 2 5 7)
                      else TensorView_cast (mkMatrix 3 5 2)) [] in
  exists k i s,
    k < maxNumDims (participants st 3 1 2)
    /\ paddedShapes (participants st 3 1 2) !! i = Some s
    /\ InvalidArgument 0 3 (TensorShapeOf [3; 7]%N) [5; 7]%N
       = InvalidArgument k (dimAt s k) s (paddedOpDims (participants st 3 1 2))
    /\ Matches (dimAt s k) (nth k (paddedOpDims (participants st 3 1 2)) 0%N) = false
    /\ (forall k' s', k' < k -> s' ∈ paddedShapes (participants st 3 1 2) ->
          Matches (dimAt s' k')
                  (nth k' (paddedOpDims (participants st 3 1 2)) 0%N) = true)
    /\ (forall i' s', i' < i ->
          paddedShapes (participants st 3 1 2) !! i' = Some s' ->
          Matches (dimAt s' k)
                  (nth k (paddedOpDims (participants st 3 1 2)) 0%N) = true).
Proof.
  intros st.
  refine (DoBinaryOpOf_reports_first st 3 1 2 tt tt tt _ _).
  reflexivity.
Defined.

(** ** The shapes after alignment *)

Lemma keptFrom_bounds (n : nat) (toDrop : list bool) (k : nat) :
  k ∈ keptFrom n toDrop ->
  n <= k < n + length toDrop /\ nth (k - n) toDrop true = false.
Proof.
  revert n. induction toDrop as [|b toDrop IH]; intros n Hk; simpl in *.
  - now apply elem_of_nil in Hk.
  - assert (k ∈ keptFrom (S n) toDrop ->
            n <= k < n + S (length toDrop)
            /\ nth (k - n) (b :: toDrop) true = false) as Hrest.
    { intros H. destruct (IH (S n) H) as [Hb Hf]. split; [lia|].
      replace (k - n) with (S (k - S n)) by lia. exact Hf. }
    destruct b; [auto|].
    apply elem_of_cons in Hk. destruct Hk as [->|Hk]; [|auto].
    split; [lia|]. now rewrite Nat.sub_diag.
Qed.

Lemma keptFrom_length (n : nat) (toDrop : list bool) :
  length (keptFrom n toDrop) <= length toDrop.
Proof.
  revert n. induction toDrop as [|b toDrop IH]; intros n; simpl; [lia|].
  specialize (IH (S n)). destruct b; simpl; lia.
Qed.

(** [dropMasked] reads the surviving axes off the list. *)
Lemma dropMasked_keptFrom {A : Type} (n : nat) (toDrop : list bool) (l : list A)
    (d : A) :
  length l = length toDrop ->
  dropMasked toDrop l = map (fun k => nth (k - n) l d) (keptFrom n toDrop).
Proof.
  revert n l. induction toDrop as [|b toDrop IH]; intros n [|x l] Hlen;
    simpl in *; try reflexivity; try lia.
  assert (map (fun k => nth (k - S n) l d) (keptFrom (S n) toDrop)
          = map (fun k => nth (k - n) (x :: l) d) (keptFrom (S n) toDrop)) as Hshift.
  { apply map_ext_in. intros k Hk. apply list_elem_of_In in Hk.
    apply keptFrom_bounds in Hk. destruct Hk as [Hk _].
    replace (k - n) with (S (k - S n)) by lia. reflexivity. }
  destruct b; simpl.
  - rewrite (IH (S n)) by lia. exact Hshift.
  - rewrite Nat.sub_diag. simpl. rewrite (IH (S n)) by lia. now rewrite Hshift.
Qed.

Lemma dropMasked_nth {A : Type} (toDrop : list bool) (l : list A) (d : A) (j : nat) :
  length l = length toDrop -> j < length (keptFrom 0 toDrop) ->
  nth j (dropMasked toDrop l) d = nth (nth j (keptFrom 0 toDrop) 0) l d.
Proof.
  intros Hlen Hj. rewrite (dropMasked_keptFrom 0 toDrop l d Hlen).
  rewrite (nth_indep _ d (nth (0 - 0) l d))
    by (rewrite length_map; exact Hj).
  rewrite (map_nth (fun k => nth (k - 0) l d)). now rewrite Nat.sub_0_r.
Qed.

Lemma dropMasked_rank {A : Type} (toDrop : list bool) (l : list A) :
  length l = length toDrop ->
  length (dropMasked toDrop l) = length (keptFrom 0 toDrop).
Proof.
  intros Hlen. destruct l as [|x l].
  - destruct toDrop; [reflexivity|discriminate].
  - rewrite (dropMasked_keptFrom 0 toDrop (x :: l) x Hlen). apply length_map.
Qed.

Lemma keptFrom_nth (toDrop : list bool) (j : nat) :
  j < length (keptFrom 0 toDrop) ->
  nth j (keptFrom 0 toDrop) 0 < length toDrop
  /\ nth (nth j (keptFrom 0 toDrop) 0) toDrop true = false.
Proof.
  intros Hj.
  assert (nth j (keptFrom 0 toDrop) 0 ∈ keptFrom 0 toDrop) as Hin
    by (apply list_elem_of_In, nth_In; exact Hj).
  apply keptFrom_bounds in Hin. rewrite Nat.sub_0_r in Hin.
  destruct Hin as [Hb Hf]. split; [lia|exact Hf].
Qed.

Lemma dropMask_length (ps : list TensorShape) :
  length (dropMask ps) = maxNumDims ps.
Proof. apply toDropOf_length. Qed.

(** Where an aligned shape comes from: a flattened shape, filtered by the
    drop mask; its axis [j] is the flattened shape's [j]-th surviving
    axis. *)
Lemma aligned_origin (ps : list TensorShape) (s' : TensorShape) :
  s' ∈ fst (aligned ps) ->
  exists s, s ∈ fst (flattened ps)
            /\ s' = WithBroadcastStrides (DropSingletonDims s (dropMask ps))
            /\ GetNumDims s' = length (keptFrom 0 (dropMask ps))
            /\ forall j, j < length (keptFrom 0 (dropMask ps)) ->
                 dimAt s' j = dimAt s (nth j (keptFrom 0 (dropMask ps)) 0).
Proof.
  intros Hs'. unfold aligned, dropped in Hs'. simpl in Hs'.
  apply list_elem_of_fmap in Hs'. destruct Hs' as (s1 & -> & Hs1).
  apply list_elem_of_fmap in Hs1. destruct Hs1 as (s & -> & Hs).
  exists s. split; [exact Hs|]. split; [reflexivity|].
  destruct (flattened_rank ps) as [Hrank _]. rewrite Forall_forall in Hrank.
  assert (length (m_dims s) = length (dropMask ps)) as Hlen
    by (rewrite dropMask_length; apply (Hrank s Hs)).
  split.
  - unfold GetNumDims. simpl. now apply dropMasked_rank.
  - intros j Hj. unfold dimAt. simpl. now apply dropMasked_nth.
Qed.

Lemma aligned_opDims_origin (ps : list TensorShape) :
  length (snd (aligned ps)) = length (keptFrom 0 (dropMask ps))
  /\ forall j, j < length (keptFrom 0 (dropMask ps)) ->
       nth j (snd (aligned ps)) 0%N
       = nth (nth j (keptFrom 0 (dropMask ps)) 0) (snd (flattened ps)) 0%N.
Proof.
  destruct (flattened_rank ps) as [_ Hlen].
  assert (length (snd (flattened ps)) = length (dropMask ps)) as Hlen'
    by now rewrite dropMask_length.
  unfold aligned, dropped, GetDims, DropSingletonDims. simpl. split.
  - now apply dropMasked_rank.
  - intros j Hj. now apply dropMasked_nth.
Qed.

(** X7.  Rank bookkeeping of the alignment: flattening keeps every shape at
    the common rank; at the end all participants and [opDims] have one and
    the same rank, the number of axes the drop mask leaves, which is at most
    the common rank. *)
Theorem aligned_ranks (ps : list TensorShape) :
  (forall s, s ∈ fst (flattened ps) -> GetNumDims s = maxNumDims ps)
  /\ length (snd (flattened ps)) = maxNumDims ps
  /\ (forall s, s ∈ fst (aligned ps) -> GetNumDims s = length (snd (aligned ps)))
  /\ length (snd (aligned ps)) = length (keptFrom 0 (dropMask ps))
  /\ length (snd (aligned ps)) <= maxNumDims ps.
Proof.
  destruct (flattened_rank ps) as [Hrank Hlen]. rewrite Forall_forall in Hrank.
  destruct (aligned_opDims_origin ps) as [Hop _].
  split; [exact Hrank|]. split; [exact Hlen|]. split; [|split].
  - intros s Hs. destruct (aligned_origin ps s Hs) as (_ & _ & _ & Hr & _).
    now rewrite Hr, Hop.
  - exact Hop.
  - rewrite Hop, <- dropMask_length. apply keptFrom_length.
Qed.

Lemma allSingleton_false (k : nat) (shapes : list TensorShape) :
  allSingleton k shapes = false ->
  exists s, s ∈ shapes /\ dimAt s k <> 1%N.
Proof.
  induction shapes as [|s shapes IH]; simpl; [discriminate|].
  destruct (N.eqb_spec (dimAt s k) 1) as [He|Hne]; simpl.
  - intros H. destruct (IH H) as (t & Ht & Hne).
    exists t. split; [now constructor|trivial].
  - intros _. exists s. split; [constructor|trivial].
Qed.

(** X8.  No all-singleton axis is left in the final shapes: at every final
    axis some participant has an extent other than 1 (so, as the source
    notes, any 1 that remains is some form of broadcasting). *)
Theorem aligned_no_singleton_axis (ps : list TensorShape) (j : nat) :
  j < length (snd (aligned ps)) ->
  exists s, s ∈ fst (aligned ps) /\ dimAt s j <> 1%N.
Proof.
  intros Hj. destruct (aligned_opDims_origin ps) as [Hop _].
  rewrite Hop in Hj.
  destruct (keptFrom_nth (dropMask ps) j Hj) as [Hk Hflag].
  rewrite dropMask_length in Hk.
  set (k := nth j (keptFrom 0 (dropMask ps)) 0) in *.
  assert (allSingleton k (fst (flattened ps)) = false) as Hnot.
  { rewrite <- (toDropOf_nth (maxNumDims ps)) by trivial.
    fold (dropMask ps).
    rewrite (nth_indep _ false true) by (rewrite dropMask_length; exact Hk).
    exact Hflag. }
  apply allSingleton_false in Hnot. destruct Hnot as (s & Hs & Hne).
  exists (WithBroadcastStrides (DropSingletonDims s (dropMask ps))).
  assert (WithBroadcastStrides (DropSingletonDims s (dropMask ps))
          ∈ fst (aligned ps)) as Hin.
  { unfold aligned, dropped. simpl.
    apply list_elem_of_fmap. eexists. split; [reflexivity|].
    apply list_elem_of_fmap. eauto. }
  split; [exact Hin|].
  destruct (flattened_rank ps) as [Hrank _]. rewrite Forall_forall in Hrank.
  unfold dimAt at 1. simpl.
  rewrite dropMasked_nth; [exact Hne| |exact Hj].
  rewrite dropMask_length. apply (Hrank s Hs).
Qed.

(** The self-test participants keep all three axes; at axis 1 the first
    input has extent 2. *)
Lemma aligned_no_singleton_axis_witness :
  let ps := [TensorShapeOf [1; 2; 21]%N; TensorShapeOf [13; 1]%N;
             TensorShapeOf [13; 1; 21]%N] in
  exists s, s ∈ fst (aligned ps) /\ dimAt s 1 <> 1%N.
Proof.
  intros ps. refine (aligned_no_singleton_axis ps 1 _).
  vm_compute. lia.
Defined.

(** What every merge the loop really performs preserves, holds after the
    loop: the merge is at an axis [1 <= k < dims] and its condition holds. *)
Lemma flattenLoop_invariant (dims : nat) (I : list TensorShape * list N -> Prop) :
  (forall k shapes opDims,
      1 <= k < dims -> I (shapes, opDims) ->
      mergeable k opDims shapes = true -> I (mergedAt k (shapes, opDims))) ->
  forall st, I st -> I (flattenLoop dims st).
Proof.
  intros Hmerge. unfold flattenLoop.
  assert (Forall (fun k => 1 <= k < dims) (seq 1 (dims - 1))) as Hks.
  { rewrite Forall_forall. intros k Hk. apply elem_of_seq in Hk. lia. }
  induction Hks as [|k ks Hk _ IH]; intros st Hst; cbn [fold_left]; [trivial|].
  apply IH. destruct st as [shapes opDims]. unfold flattenStep.
  destruct (mergeable k opDims shapes) eqn:Hm; [|trivial].
  now apply Hmerge.
Qed.

Lemma Matches_one_l (d : N) : Matches 1 d = true.
Proof. reflexivity. Qed.

Lemma Matches_refl (d : N) : Matches d d = true.
Proof. unfold Matches. rewrite N.eqb_refl. apply orb_true_r. Qed.

(** Ranks and the [Matches] relation to [opDims], kept by every merge. *)
Lemma flattened_Matches (ps : list TensorShape) :
  compatibility ps = None ->
  forall s k, s ∈ fst (flattened ps) -> k < maxNumDims ps ->
    Matches (dimAt s k) (nth k (snd (flattened ps)) 0%N) = true.
Proof.
  intros Hc. rewrite compatibility_None in Hc.
  set (dims := maxNumDims ps) in *.
  pose (I := fun st : list TensorShape * list N =>
               Forall (fun s => GetNumDims s = dims) (fst st)
               /\ length (snd st) = dims
               /\ forall s k, s ∈ fst st -> k < dims ->
                    Matches (dimAt s k) (nth k (snd st) 0%N) = true).
  assert (I (flattened ps)) as (_ & _ & H); [|exact H].
  unfold flattened. apply flattenLoop_invariant.
  - intros k shapes opDims Hk (Hrank & Hlen & Hm) Hmerge. simpl in *.
    rewrite Forall_forall in Hrank.
    apply mergeable_Forall in Hmerge. rewrite Forall_forall in Hmerge.
    destruct (mergedAt_opDims_nth k shapes opDims) as (Hok & Hok1 & Hoj); [lia|].
    split; [|split].
    + unfold mergedAt. simpl. rewrite Forall_forall. intros s Hs.
      apply list_elem_of_fmap in Hs. destruct Hs as (s0 & -> & Hs0).
      rewrite Flatten_rank. auto.
    + unfold mergedAt. simpl. now rewrite !length_insert.
    + intros s j Hs Hj. unfold mergedAt in Hs. simpl in Hs.
      apply list_elem_of_fmap in Hs. destruct Hs as (s0 & -> & Hs0).
      destruct (Flatten_dimAt s0 k) as (Hsk & Hsk1 & Hsj);
        [lia|rewrite (Hrank s0 Hs0); lia|].
      destruct (Hmerge s0 Hs0) as [_ Hstatus].
      destruct (Nat.eq_dec j k) as [->|Hjk].
      * rewrite Hsk, Hok. destruct Hstatus as [[-> ->]|[-> ->]].
        -- apply Matches_refl.
        -- change (SizeT.mul 1 1) with 1%N. apply Matches_one_l.
      * destruct (Nat.eq_dec j (k - 1)) as [->|Hjk1].
        -- rewrite Hsk1. apply Matches_one_l.
        -- rewrite Hsj, Hoj by trivial. auto.
  - simpl. split; [|split].
    + rewrite Forall_forall. apply paddedShapes_rank.
    + apply operationShape_length.
    + intros s k Hs Hk. now apply Hc.
Qed.

(** X9.  Compatibility survives the alignment: when the check passes, every
    final shape still matches the final [opDims] at every final axis (its
    extent there is 1, or [opDims] is 1, or the two are equal). *)
Theorem aligned_Matches (ps : list TensorShape) :
  compatibility ps = None ->
  forall s j, s ∈ fst (aligned ps) -> j < length (snd (aligned ps)) ->
    Matches (dimAt s j) (nth j (snd (aligned ps)) 0%N) = true.
Proof.
  intros Hc s j Hs Hj.
  destruct (aligned_opDims_origin ps) as [Hlen Hop]. rewrite Hlen in Hj.
  destruct (aligned_origin ps s Hs) as (s0 & Hs0 & _ & _ & Hdim).
  rewrite Hdim, Hop by trivial.
  apply flattened_Matches; [exact Hc|exact Hs0|].
  destruct (keptFrom_nth (dropMask ps) j Hj) as [Hk _].
  now rewrite dropMask_length in Hk.
Qed.

(** The participants (2,3), (1,1), (2,3) end as (6), (1), (6) under the
    operation shape (6). *)
Lemma aligned_Matches_witness :
  let ps := [TensorShapeOf [2; 3]%N; TensorShapeOf [1; 1]%N;
             TensorShapeOf [2; 3]%N] in
  Matches (dimAt (mkTensorShape [1%N] [0%Z]) 0) (nth 0 (snd (aligned ps)) 0%N)
  = true.
Proof.
  intros ps.
  refine (aligned_Matches ps _ (mkTensorShape [1%N] [0%Z]) 0 _ _).
  - reflexivity.
  - vm_compute. constructor. constructor.
  - vm_compute. lia.
Defined.

(** *** Element counts *)

Lemma product_replicate_one (n : nat) : product (replicate n 1%N) = 1%N.
Proof. induction n as [|n IH]; simpl; [reflexivity|]. rewrite IH. lia. Qed.

Lemma product_merge_succ (i : nat) (l : list N) :
  S i < length l ->
  product (<[S i := (nth (S i) l 0 * nth i l 0)%N]> (<[i := 1%N]> l)) = product l.
Proof.
  revert l. induction i as [|i IH]; intros l Hlen.
  - destruct l as [|b [|a l]]; simpl in *; try lia.
  - destruct l as [|x l]; simpl in *; [lia|].
    rewrite IH by lia. reflexivity.
Qed.

Lemma product_merge (k : nat) (l : list N) :
  1 <= k < length l ->
  product (<[k := (nth k l 0 * nth (k - 1) l 0)%N]> (<[k - 1 := 1%N]> l)) = product l.
Proof.
  intros [H1 Hk]. destruct k as [|i]; [lia|].
  replace (S i - 1) with i by lia. now apply product_merge_succ.
Qed.

Lemma product_dropMasked (toDrop : list bool) (l : list N) :
  length l = length toDrop ->
  (forall k, k < length l -> nth k toDrop false = true -> nth k l 0%N = 1%N) ->
  product (dropMasked toDrop l) = product l.
Proof.
  revert l. induction toDrop as [|b toDrop IH]; intros [|x l] Hlen Hone;
    simpl in *; try reflexivity; try lia.
  assert (product (dropMasked toDrop l) = product l) as Hrest.
  { apply IH; [lia|]. intros k Hk Hflag. apply (Hone (S k)); [lia|exact Hflag]. }
  destruct b; simpl; rewrite Hrest; [|reflexivity].
  rewrite (Hone 0) by (trivial; lia). lia.
Qed.

Lemma nth_pos (l : list N) (k : nat) :
  Forall (fun d => 1 <= d)%N l -> k < length l -> (1 <= nth k l 0)%N.
Proof.
  intros Hl Hk. rewrite Forall_forall in Hl.
  apply Hl, list_elem_of_In, nth_In. exact Hk.
Qed.

Lemma nth_le_product (l : list N) (k : nat) :
  Forall (fun d => 1 <= d)%N l -> k < length l -> (nth k l 0 <= product l)%N.
Proof.
  intros Hl. revert k. induction Hl as [|x l Hx Hl IH]; intros k Hk; simpl in *.
  - lia.
  - pose proof (product_pos l Hl) as Hp. destruct k as [|k].
    + nia.
    + specialize (IH k). assert (nth k l 0 <= product l)%N by (apply IH; lia). nia.
Qed.

(** In a sequence of extents at least 1 whose product fits [size_t], the
    product of two neighbours does not wrap, and merging them keeps both
    properties. *)
Lemma merge_nowrap (l : list N) (k : nat) :
  Forall (fun d => 1 <= d)%N l -> (product l < SizeT.modulus)%N ->
  1 <= k < length l ->
  let l' := <[k := SizeT.mul (nth k l 0%N) (nth (k - 1) l 0%N)]>
              (<[k - 1 := 1%N]> l) in
  SizeT.mul (nth k l 0%N) (nth (k - 1) l 0%N) = (nth k l 0 * nth (k - 1) l 0)%N
  /\ Forall (fun d => 1 <= d)%N l'
  /\ product l' = product l.
Proof.
  intros Hl Hfit Hk l'.
  pose proof (nth_pos l k Hl) as Ha. pose proof (nth_pos l (k - 1) Hl) as Hb.
  set (u := <[k := (nth k l 0 * nth (k - 1) l 0)%N]> (<[k - 1 := 1%N]> l)).
  assert (Forall (fun d => 1 <= d)%N u) as Hu.
  { unfold u. apply Forall_insert; [apply Forall_insert; [exact Hl|lia]|].
    specialize (Ha ltac:(lia)). specialize (Hb ltac:(lia)). nia. }
  assert (product u = product l) as Hpu by (apply product_merge; lia).
  assert (nth k u 0%N = (nth k l 0 * nth (k - 1) l 0)%N) as Hnth.
  { unfold u. apply nth_insert_eq. rewrite length_insert. lia. }
  assert (nth k u 0 <= product u)%N as Hle.
  { apply nth_le_product; [exact Hu|]. unfold u. rewrite !length_insert. lia. }
  assert (SizeT.mul (nth k l 0%N) (nth (k - 1) l 0%N)
          = (nth k l 0 * nth (k - 1) l 0)%N) as Hmul.
  { apply SizeT_mul_small. lia. }
  split; [exact Hmul|]. unfold l'. rewrite Hmul. fold u. auto.
Qed.

Lemma paddedOpDims_pos (ps : list TensorShape) :
  (forall s, s ∈ ps -> Forall (fun d => 1 <= d)%N (m_dims s)) ->
  Forall (fun d => 1 <= d)%N (paddedOpDims ps).
Proof.
  intros Hpos. rewrite Forall_forall. intros d Hd.
  unfold paddedOpDims, operationShape in Hd.
  apply list_elem_of_fmap in Hd. destruct Hd as (k & -> & Hk).
  apply elem_of_seq in Hk. assert (k < maxNumDims ps) as Hk' by lia.
  destruct (paddedOpDims_attained ps k Hk') as (s & Hs & Hatt).
  rewrite <- (operationShape_nth (maxNumDims ps)) by trivial.
  fold (paddedOpDims ps). rewrite <- Hatt.
  now apply (paddedShapes_dim_pos ps).
Qed.

(** The flattening loop when no [size_t] product wraps: the operation shape
    keeps extents at least 1 and its product, and whatever every merge then
    preserves holds at the end. *)
Lemma flattenLoop_nowrap (ps : list TensorShape)
    (J : list TensorShape * list N -> Prop) :
  (forall s, s ∈ ps -> Forall (fun d => 1 <= d)%N (m_dims s)) ->
  (product (paddedOpDims ps) < SizeT.modulus)%N ->
  (forall k shapes opDims,
      1 <= k < maxNumDims ps ->
      Forall (fun s => GetNumDims s = maxNumDims ps) shapes ->
      length opDims = maxNumDims ps ->
      Forall (fun d => 1 <= d)%N opDims ->
      (product opDims < SizeT.modulus)%N ->
      mergeable k opDims shapes = true ->
      J (shapes, opDims) -> J (mergedAt k (shapes, opDims))) ->
  J (paddedShapes ps, paddedOpDims ps) ->
  J (flattened ps)
  /\ Forall (fun d => 1 <= d)%N (snd (flattened ps))
  /\ product (snd (flattened ps)) = product (paddedOpDims ps).
Proof.
  intros Hpos Hfit Hstep Hinit.
  pose (I := fun st : list TensorShape * list N =>
               Forall (fun s => GetNumDims s = maxNumDims ps) (fst st)
               /\ length (snd st) = maxNumDims ps
               /\ Forall (fun d => 1 <= d)%N (snd st)
               /\ product (snd st) = product (paddedOpDims ps)
               /\ J st).
  assert (I (flattened ps)) as (_ & _ & H1 & H2 & H3); [|auto].
  unfold flattened. apply flattenLoop_invariant.
  - intros k shapes opDims Hk (Hrank & Hlen & Hge & Hprod & HJ) Hmerge.
    simpl in *.
    destruct (merge_nowrap opDims k Hge) as (_ & Hge' & Hprod'); [lia|lia|].
    split; [|split; [|split; [|split]]].
    + unfold mergedAt. simpl. rewrite Forall_forall in *. intros s Hs.
      apply list_elem_of_fmap in Hs. destruct Hs as (s0 & -> & Hs0).
      rewrite Flatten_rank. auto.
    + unfold mergedAt. simpl. now rewrite !length_insert.
    + exact Hge'.
    + unfold mergedAt. simpl. congruence.
    + apply Hstep; trivial. lia.
  - unfold I. simpl. split; [|split; [|split; [|split]]].
    + rewrite Forall_forall. apply paddedShapes_rank.
    + apply operationShape_length.
    + now apply paddedOpDims_pos.
    + reflexivity.
    + exact Hinit.
Qed.

(** A flagged axis has extent 1 in every flattened participant. *)
Lemma dropMask_flagged (ps : list TensorShape) (s : TensorShape) (k : nat) :
  s ∈ fst (flattened ps) -> k < maxNumDims ps ->
  nth k (dropMask ps) false = true -> dimAt s k = 1%N.
Proof.
  intros Hs Hk Hflag. unfold dropMask in Hflag.
  rewrite toDropOf_nth in Hflag by trivial.
  apply allSingleton_Forall in Hflag. rewrite Forall_forall in Hflag. auto.
Qed.

(** A merge keeps a participant's element count when the merged operation
    extent does not wrap: the participant's two extents are those of
    [opDims], or both 1. *)
Lemma Flatten_product (s : TensorShape) (opDims : list N) (k : nat) :
  1 <= k < GetNumDims s ->
  sameBroadcastStatus s opDims k ->
  (nth k opDims 0 * nth (k - 1) opDims 0 < SizeT.modulus)%N ->
  product (m_dims (Flatten s k)) = product (m_dims s).
Proof.
  intros Hk Hstatus Hfit. unfold Flatten. simpl.
  assert (SizeT.mul (dimAt s k) (dimAt s (k - 1))
          = (dimAt s k * dimAt s (k - 1))%N) as ->.
  { destruct Hstatus as [[-> ->]|[-> ->]].
    - now apply SizeT_mul_small.
    - reflexivity. }
  unfold dimAt. now apply product_merge.
Qed.

(** X10.  When all extents are at least 1 and the product of the operation
    shape is below [2^64] (no [size_t] product wraps), alignment never
    changes how many elements a participant has: the product of the extents
    of each final shape equals the product of the extents its participant
    declared (padding appends ones, a merge multiplies two extents into
    one, only extents 1 are dropped). *)
Theorem aligned_participant_count (ps : list TensorShape) :
  (forall s, s ∈ ps -> Forall (fun d => 1 <= d)%N (m_dims s)) ->
  (product (paddedOpDims ps) < SizeT.modulus)%N ->
  Forall2 (fun s s' => product (m_dims s') = product (m_dims s))
          ps (fst (aligned ps)).
Proof.
  intros Hpos Hfit.
  apply Forall2_same_length_lookup_2.
  { unfold aligned, dropped, flattened, flattenLoop. simpl.
    rewrite !length_map.
    assert (forall ks st, length (fst (fold_left flattenStep ks st))
                          = length (fst st)) as Hlen.
    { induction ks as [|k ks IH]; intros st; cbn [fold_left]; [reflexivity|].
      rewrite IH. destruct (flattenStep_cases k st) as [-> | ->];
        [reflexivity|]. unfold mergedAt. simpl. apply length_map. }
    rewrite Hlen. simpl. unfold paddedShapes, padAll. now rewrite length_map. }
  intros i s s' Hs Hs'.
  change (fst (aligned ps))
    with (map WithBroadcastStrides
              (map (fun t => DropSingletonDims t (dropMask ps))
                   (fst (flattened ps)))) in Hs'.
  rewrite !list_lookup_fmap in Hs'.
  destruct (fst (flattened ps) !! i) as [s2|] eqn:Hs2; [|discriminate].
  simpl in Hs'. injection Hs' as <-. simpl.
  assert (product (m_dims s2) = product (m_dims s)) as Hflat.
  { pose (J := fun st : list TensorShape * list N =>
                 forall t, fst st !! i = Some t ->
                   product (m_dims t) = product (m_dims s)).
    assert (J (flattened ps)) as HJ; [|now apply HJ].
    apply (flattenLoop_nowrap ps J Hpos Hfit).
    - intros k shapes opDims Hk Hrank Hlen Hge Hbound Hmerge HJ t Ht.
      unfold mergedAt in Ht. simpl in Ht. rewrite list_lookup_fmap in Ht.
      destruct (shapes !! i) as [t0|] eqn:Ht0; [|discriminate].
      simpl in Ht. injection Ht as <-.
      assert (t0 ∈ shapes) as Hin by (eapply list_elem_of_lookup_2; eauto).
      apply mergeable_Forall in Hmerge. rewrite Forall_forall in Hmerge, Hrank.
      destruct (Hmerge t0 Hin) as [_ Hstatus].
      destruct (merge_nowrap opDims k Hge Hbound) as (Hmul & _ & _); [lia|].
      rewrite (Flatten_product t0 opDims k); [now apply HJ| |exact Hstatus|].
      + rewrite (Hrank t0 Hin). lia.
      + rewrite <- Hmul. unfold SizeT.mul. apply N.mod_lt. discriminate.
    - intros t Ht. simpl in Ht. unfold paddedShapes, padAll in Ht.
      rewrite list_lookup_fmap, Hs in Ht. simpl in Ht. injection Ht as <-.
      unfold Pad. simpl. rewrite product_app, product_replicate_one. lia. }
  rewrite <- Hflat.
  assert (s2 ∈ fst (flattened ps)) as Hin
    by (eapply list_elem_of_lookup_2; eauto).
  destruct (flattened_rank ps) as [Hrank _]. rewrite Forall_forall in Hrank.
  specialize (Hrank s2 Hin). unfold GetNumDims in Hrank.
  apply product_dropMasked.
  - now rewrite dropMask_length.
  - intros k Hk Hflag. apply (dropMask_flagged ps s2 k Hin); [lia|exact Hflag].
Qed.

(** The self-test participants: 42, 13 and 273 elements before and after. *)
Lemma aligned_participant_count_witness :
  let ps := [TensorShapeOf [1; 2; 21]%N; TensorShapeOf [13; 1]%N;
             TensorShapeOf [13; 1; 21]%N] in
  Forall2 (fun s s' => product (m_dims s') = product (m_dims s))
          ps (fst (aligned ps)).
Proof.
  intros ps. refine (aligned_participant_count ps _ _).
  - intros s Hs. unfold ps in Hs.
    repeat (apply elem_of_cons in Hs; destruct Hs as [->|Hs];
            [simpl; repeat constructor; lia|]).
    now apply elem_of_nil in Hs.
  - reflexivity.
Defined.

(** The attained operation extents, kept by every merge: at every axis some
    participant has exactly the extent of [opDims]. *)
Lemma flattened_attained (ps : list TensorShape) (k0 : nat) :
  k0 < maxNumDims ps ->
  exists s, s ∈ fst (flattened ps)
            /\ dimAt s k0 = nth k0 (snd (flattened ps)) 0%N.
Proof.
  intros Hk0. set (dims := maxNumDims ps) in *.
  pose (I := fun st : list TensorShape * list N =>
               Forall (fun s => GetNumDims s = dims) (fst st)
               /\ length (snd st) = dims
               /\ forall j, j < dims ->
                    exists s, s ∈ fst st /\ dimAt s j = nth j (snd st) 0%N).
  assert (I (flattened ps)) as (_ & _ & Hatt); [|auto].
  unfold flattened. apply flattenLoop_invariant.
  - intros k shapes opDims Hk (Hrank & Hlen & Hatt) Hmerge. simpl in *.
    rewrite Forall_forall in Hrank.
    apply mergeable_Forall in Hmerge. rewrite Forall_forall in Hmerge.
    destruct (mergedAt_opDims_nth k shapes opDims) as (Hok & Hok1 & Hoj); [lia|].
    assert (forall s, s ∈ shapes ->
              Flatten s k ∈ fst (mergedAt k (shapes, opDims))) as Hin.
    { intros s Hs. unfold mergedAt. simpl. apply list_elem_of_fmap. eauto. }
    assert (forall s, s ∈ shapes ->
              dimAt (Flatten s k) k = SizeT.mul (dimAt s k) (dimAt s (k - 1))
              /\ dimAt (Flatten s k) (k - 1) = 1%N
              /\ (forall j, j <> k -> j <> k - 1 ->
                    dimAt (Flatten s k) j = dimAt s j)) as Hfl.
    { intros s Hs. apply Flatten_dimAt; [lia|]. rewrite (Hrank s Hs). lia. }
    split; [|split].
    + unfold mergedAt. simpl. rewrite Forall_forall. intros s Hs.
      apply list_elem_of_fmap in Hs. destruct Hs as (s0 & -> & Hs0).
      rewrite Flatten_rank. auto.
    + unfold mergedAt. simpl. now rewrite !length_insert.
    + intros j Hj.
      destruct (Nat.eq_dec j k) as [->|Hjk];
        [|destruct (Nat.eq_dec j (k - 1)) as [->|Hjk1]].
      * (* the merged axis *)
        destruct (Hatt k) as (p & Hp & Hpk); [lia|].
        destruct (Hatt (k - 1)) as (q & Hq & Hqk); [lia|].
        destruct (Hmerge p Hp) as [_ [[_ Hp1]|[Hp1 Hp2]]].
        { exists (Flatten p k). split; [auto|].
          destruct (Hfl p Hp) as (-> & _ & _). rewrite Hok. congruence. }
        destruct (Hmerge q Hq) as [_ [[Hq1 _]|[Hq1 Hq2]]].
        { exists (Flatten q k). split; [auto|].
          destruct (Hfl q Hq) as (-> & _ & _). rewrite Hok. congruence. }
        exists (Flatten p k). split; [auto|].
        destruct (Hfl p Hp) as (-> & _ & _). rewrite Hok. congruence.
      * (* the axis left behind *)
        destruct (Hatt k) as (p & Hp & _); [lia|].
        exists (Flatten p k). split; [auto|].
        destruct (Hfl p Hp) as (_ & -> & _). now rewrite Hok1.
      * destruct (Hatt j Hj) as (p & Hp & Hpj).
        exists (Flatten p k). split; [auto|].
        destruct (Hfl p Hp) as (_ & _ & Hother).
        rewrite Hother, Hoj by trivial. exact Hpj.
  - simpl. split; [|split].
    + rewrite Forall_forall. apply paddedShapes_rank.
    + apply operationShape_length.
    + intros j Hj. now apply paddedOpDims_attained.
Qed.

(** X11.  When all extents are at least 1 and the product of the operation
    shape computed before flattening is below [2^64] (no [size_t] product
    wraps), alignment never changes the size of the operation: the product
    of the final [opDims] equals that product. *)
Theorem aligned_opDims_count (ps : list TensorShape) :
  (forall s, s ∈ ps -> Forall (fun d => 1 <= d)%N (m_dims s)) ->
  (product (paddedOpDims ps) < SizeT.modulus)%N ->
  product (snd (aligned ps)) = product (paddedOpDims ps).
Proof.
  intros Hpos Hfit.
  destruct (flattened_rank ps) as [_ Hlen].
  destruct (flattenLoop_nowrap ps (fun _ => True) Hpos Hfit) as (_ & _ & Hprod);
    [trivial|trivial|].
  unfold aligned, dropped, GetDims, DropSingletonDims. simpl.
  rewrite <- Hprod. apply product_dropMasked.
  - now rewrite dropMask_length.
  - intros k Hk Hflag. rewrite Hlen in Hk.
    destruct (flattened_attained ps k Hk) as (s & Hs & <-).
    now apply (dropMask_flagged ps).
Qed.

(** The participants (2,3), (1,1), (2,3): 6 elements before and after. *)
Lemma aligned_opDims_count_witness :
  let ps := [TensorShapeOf [2; 3]%N; TensorShapeOf [1; 1]%N;
             TensorShapeOf [2; 3]%N] in
  product (snd (aligned ps)) = product (paddedOpDims ps).
Proof.
  intros ps. refine (aligned_opDims_count ps _ _).
  - intros s Hs. unfold ps in Hs.
    repeat (apply elem_of_cons in Hs; destruct Hs as [->|Hs];
            [simpl; repeat constructor; lia|]).
    now apply elem_of_nil in Hs.
  - reflexivity.
Defined.

(** *** Three matrices of one size *)

(** X12.  An operation on three views cast from matrices of one and the same
    size [r x c] passes the compatibility check, and its two axes are merged
    into one: every final shape is the single axis whose extent is the
    [size_t] product of [c] and [r], with stride 1, under the final
    operation shape of that one extent; when that product is 1 nothing is
    left and the final rank is 0. *)
Theorem same_size_matrices_flatten (ma mb mc : Matrix) :
  GetNumRows mb = GetNumRows ma -> GetNumCols mb = GetNumCols ma ->
  GetNumRows mc = GetNumRows ma -> GetNumCols mc = GetNumCols ma ->
  let r := GetNumRows ma in
  let c := GetNumCols ma in
  let ps := [GetShape (TensorView_cast ma); GetShape (TensorView_cast mb);
             GetShape (TensorView_cast mc)] in
  let flat := {| m_dims := [SizeT.mul c r]; m_strides := [1%Z] |} in
  let scalar := {| m_dims := []; m_strides := [] |} in
  compatibility ps = None
  /\ aligned ps = if (SizeT.mul c r =? 1)%N
                  then ([scalar; scalar; scalar], [])
                  else ([flat; flat; flat], [SizeT.mul c r]).
Proof.
  intros Hrb Hcb Hrc Hcc r c ps flat scalar.
  set (s := {| m_dims := [r; c]; m_strides := [1%Z; (1 * Z.of_N r)%Z] |}).
  assert (ps = [s; s; s]) as Hps.
  { unfold ps, TensorView_cast, GetShape, TensorShapeOf. simpl.
    now rewrite Hrb, Hcb, Hrc, Hcc. }
  clearbody ps. subst ps.
  assert (maxNumDims [s; s; s] = 2) as Hdims by reflexivity.
  assert (paddedShapes [s; s; s] = [s; s; s]) as Hpad by reflexivity.
  assert (paddedOpDims [s; s; s] = [r; c]) as Hop.
  { change (paddedOpDims [s; s; s])
      with [N.max (N.max (N.max 0 r) r) r; N.max (N.max (N.max 0 c) c) c].
    f_equal; [lia|f_equal; lia]. }
  split.
  { apply compatibility_None. rewrite Hdims, Hpad, Hop. intros k t Hk Ht.
    assert (t = s) as ->.
    { repeat (apply elem_of_cons in Ht; destruct Ht as [->|Ht]; [reflexivity|]).
      now apply elem_of_nil in Ht. }
    destruct k as [|[|k]]; [apply Matches_refl|apply Matches_refl|lia]. }
  set (e := SizeT.mul c r) in *.
  set (f := {| m_dims := [1%N; e]; m_strides := [1%Z; 1%Z] |}).
  assert (flattened [s; s; s] = ([f; f; f], [1%N; e])) as Hfl.
  { unfold flattened, flattenLoop. rewrite Hdims, Hpad, Hop.
    cbn [seq Nat.sub fold_left]. rewrite flattenStep_merge; [reflexivity|].
    apply mergeable_Forall.
    repeat constructor. }
  clearbody e.
  assert (dropMask [s; s; s] = [true; negb (negb (e =? 1)%N)]) as Hmask.
  { unfold dropMask. rewrite Hfl, Hdims. unfold toDropOf. cbn [seq map fst].
    f_equal. f_equal. unfold allSingleton, f, dimAt. cbn [m_dims nth].
    now destruct (e =? 1)%N. }
  unfold aligned, dropped. rewrite Hmask, Hfl. cbn [fst snd map].
  unfold WithBroadcastStrides, DropSingletonDims, GetDims, TensorShapeOf, f.
  cbn [m_dims m_strides].
  destruct (N.eqb_spec e 1) as [He|Hne]; cbn [negb dropMasked zip_with].
  - reflexivity.
  - destruct (N.eqb_spec e 1); [contradiction|]. reflexivity.
Qed.

(** Three 13 x 21 matrices: one axis of 273 elements. *)
Lemma same_size_matrices_flatten_witness :
  aligned [GetShape (TensorView_cast (mkMatrix 1 13 21));
           GetShape (TensorView_cast (mkMatrix 2 13 21));
           GetShape (TensorView_cast (mkMatrix 3 13 21))]
  = ([mkTensorShape [273%N] [1%Z]; mkTensorShape [273%N] [1%Z];
      mkTensorShape [273%N] [1%Z]], [273%N]).
Proof.
  refine (proj2 (same_size_matrices_flatten (mkMatrix 1 13 21) (mkMatrix 2 13 21)
                   (mkMatrix 3 13 21) _ _ _ _)); reflexivity.
Defined.

(** ** Inputs against each other, and against the output *)

Lemma participants_padded {Op : Type} (st : state Op) (this a b : positive) :
  let ps := participants st this a b in
  paddedShapes ps
  = [Pad (GetShape (views st a)) (maxNumDims ps);
     Pad (GetShape (views st b)) (maxNumDims ps);
     Pad (GetShape (views st this)) (maxNumDims ps)].
Proof. reflexivity. Qed.

Lemma Pad_all_ones (s : TensorShape) (dims k : nat) :
  Forall (fun d => d = 1%N) (m_dims s) -> k < dims -> dimAt (Pad s dims) k = 1%N.
Proof.
  intros Hone Hk.
  destruct (Nat.lt_ge_cases k (GetNumDims s)) as [Hlt|Hge].
  - rewrite Pad_dimAt_declared by trivial.
    rewrite Forall_forall in Hone. apply Hone.
    unfold dimAt. apply list_elem_of_In, nth_In. exact Hlt.
  - now apply Pad_dimAt_appended.
Qed.

(** X13.  Two inputs that disagree at an axis both declare, neither extent
    being 1, make the operation throw whatever the output view is; nothing
    is written to the diagnostic stream. *)
Theorem DoBinaryOpOf_input_mismatch {ElemType Op : Type} (st : state Op)
    (this a b : positive) (beta alpha : ElemType) (op : Op) (k : nat) :
  let sa := GetShape (views st a) in
  let sb := GetShape (views st b) in
  k < GetNumDims sa -> k < GetNumDims sb ->
  dimAt sa k <> 1%N -> dimAt sb k <> 1%N -> dimAt sa k <> dimAt sb k ->
  (exists e, snd (DoBinaryOpOf this beta a b alpha op st) = Throw e)
  /\ fst (DoBinaryOpOf this beta a b alpha op st) = st.
Proof.
  intros sa sb Hka Hkb Ha1 Hb1 Hab. rewrite DoBinaryOpOf_run.
  set (ps := participants st this a b).
  destruct (compatibility ps) as [e|] eqn:Hc; simpl; [eauto|].
  exfalso. rewrite compatibility_None in Hc.
  assert (sa ∈ ps) as Hain by (unfold ps, participants; constructor).
  assert (sb ∈ ps) as Hbin
    by (unfold ps, participants; constructor; constructor).
  assert (k < maxNumDims ps) as Hk
    by (pose proof (maxNumDims_ge ps sa Hain); lia).
  assert (Pad sa (maxNumDims ps) ∈ paddedShapes ps) as Ha'
    by (apply list_elem_of_fmap; eauto).
  assert (Pad sb (maxNumDims ps) ∈ paddedShapes ps) as Hb'
    by (apply list_elem_of_fmap; eauto).
  pose proof (Matches_via_bound _ _ _ (Hc k _ Hk Ha') (Hc k _ Hk Hb')
                (paddedOpDims_ge ps k _ Hk Ha') (paddedOpDims_ge ps k _ Hk Hb'))
    as Hm.
  rewrite !Pad_dimAt_declared in Hm by trivial.
  assert (Matches (dimAt sa k) (dimAt sb k) = false) as Hf
    by (apply Matches_false; auto).
  congruence.
Qed.

(** Inputs of 3 and 5 rows with an output of one row. *)
Lemma DoBinaryOpOf_input_mismatch_witness :
  let st : state unit :=
    mkState (fun v => if Pos.eqb v 1 then TensorView_cast (mkMatrix 1 3 1)
                      else if Pos.eqb v 2 then TensorView_cast (mkMatrix 2 5 1)
                      else TensorView_cast (mkMatrix 3 1 1)) [] in
  (exists e, snd (DoBinaryOpOf 3 tt 1 2 tt tt st) = Throw e)
  /\ fst (DoBinaryOpOf 3 tt 1 2 tt tt st) = st.
Proof.
  intros st.
  refine (DoBinaryOpOf_input_mismatch st 3 1 2 tt tt tt 0 _ _ _ _ _).
  - vm_compute. lia.
  - vm_compute. lia.
  - vm_compute. discriminate.
  - vm_compute. discriminate.
  - vm_compute. discriminate.
Defined.

(** X14.  The output is a participant like the inputs, so an output whose
    extents are all 1 never causes a mismatch: when the two padded inputs
    match each other at every axis, the operation returns and writes its
    four diagnostic lines. *)
Theorem DoBinaryOpOf_reduce_to_ones {ElemType Op : Type} (st : state Op)
    (this a b : positive) (beta alpha : ElemType) (op : Op) :
  let ps := participants st this a b in
  let dims := maxNumDims ps in
  Forall (fun d => d = 1%N) (m_dims (GetShape (views st this))) ->
  (forall k, k < dims ->
     Matches (dimAt (Pad (GetShape (views st a)) dims) k)
             (dimAt (Pad (GetShape (views st b)) dims) k) = true) ->
  snd (DoBinaryOpOf this beta a b alpha op st) = Ret tt
  /\ stderr (fst (DoBinaryOpOf this beta a b alpha op st))
     = stderr st ++ traceOf op ps.
Proof.
  intros ps dims Hone Hab. rewrite DoBinaryOpOf_run. fold ps.
  assert (compatibility ps = None) as ->; [|split; reflexivity].
  apply compatibility_None. intros k s Hk Hs.
  destruct (paddedOpDims_attained ps k Hk) as (q & Hq & <-).
  pose proof (Pad_all_ones _ dims k Hone Hk) as Hc1.
  specialize (Hab k Hk).
  unfold ps in Hs, Hq. rewrite participants_padded in Hs, Hq.
  fold ps dims in Hs, Hq.
  repeat (apply elem_of_cons in Hs; destruct Hs as [->|Hs]);
    try (now apply elem_of_nil in Hs);
    repeat (apply elem_of_cons in Hq; destruct Hq as [->|Hq]);
    try (now apply elem_of_nil in Hq);
    rewrite ?Hc1; try apply Matches_refl; try apply Matches_one_l;
    try exact Hab; rewrite Matches_sym; try exact Hab; apply Matches_one_l.
Qed.

(** Two 13 x 21 inputs summed into a 1 x 1 output. *)
Lemma DoBinaryOpOf_reduce_to_ones_witness :
  let st : state unit :=
    mkState (fun v => if Pos.eqb v 3 then TensorView_cast (mkMatrix 3 1 1)
                      else TensorView_cast (mkMatrix 1 13 21)) [] in
  snd (DoBinaryOpOf 3 tt 1 2 tt tt st) = Ret tt
  /\ stderr (fst (DoBinaryOpOf 3 tt 1 2 tt tt st))
     = stderr st ++ traceOf tt (participants st 3 1 2).
Proof.
  intros st.
  refine (DoBinaryOpOf_reduce_to_ones st 3 1 2 tt tt tt _ _).
  - simpl. repeat constructor.
  - intros k Hk. vm_compute in Hk.
    destruct k as [|[|k]]; [reflexivity|reflexivity|lia].
Defined.

(** ** Broadcasting along a declared axis *)

Lemma keptFrom_app (n : nat) (l1 l2 : list bool) :
  keptFrom n (l1 ++ l2) = keptFrom n l1 ++ keptFrom (n + length l1) l2.
Proof.
  revert n. induction l1 as [|b l1 IH]; intros n; simpl.
  - now rewrite Nat.add_0_r.
  - rewrite IH. replace (S n + length l1) with (n + S (length l1)) by lia.
    now destruct b.
Qed.

(** An unflagged axis at position [pos] is the surviving axis number
    [length (keptFrom 0 (take pos toDrop))]. *)
Lemma keptFrom_take (toDrop : list bool) (pos : nat) :
  pos < length toDrop -> nth pos toDrop true = false ->
  length (keptFrom 0 (take pos toDrop)) < length (keptFrom 0 toDrop)
  /\ nth (length (keptFrom 0 (take pos toDrop))) (keptFrom 0 toDrop) 0 = pos.
Proof.
  intros Hpos Hflag.
  destruct (lookup_lt_is_Some_2 toDrop pos Hpos) as [b Hb].
  assert (b = false) as -> by (rewrite nth_lookup, Hb in Hflag; exact Hflag).
  rewrite <- (take_drop_middle toDrop pos false Hb) at 2 4.
  rewrite keptFrom_app. simpl.
  rewrite length_take, Nat.min_l by lia. rewrite length_app. simpl.
  split; [lia|]. rewrite app_nth2 by lia. now rewrite Nat.sub_diag.
Qed.

(** The invariant of the tracked axis: while no [size_t] product wraps, the
    tracked position stays in range, the participant at index [i] keeps
    extent 1 there, [m] divides the operation extent there, and that extent
    is [m] itself as long as no merge has involved the axis. *)
Lemma trackLoop_invariant (dims i k : nat) (m : N) (ks : list nat) :
  (1 < m)%N ->
  Forall (fun j => 1 <= j < dims) ks ->
  let Inv := fun (st : list TensorShape * list N) (tr : nat * bool) =>
    Forall (fun s => GetNumDims s = dims) (fst st)
    /\ length (snd st) = dims
    /\ Forall (fun d => 1 <= d)%N (snd st)
    /\ (product (snd st) < SizeT.modulus)%N
    /\ fst tr < dims
    /\ (exists pc, fst st !! i = Some pc /\ dimAt pc (fst tr) = 1%N)
    /\ (m | nth (fst tr) (snd st) 0)%N
    /\ (snd tr = false -> fst tr = k /\ nth k (snd st) 0%N = m) in
  forall st tr, Inv st tr -> Inv (fold_left flattenStep ks st) (trackLoop ks st tr).
Proof.
  intros Hm Hks Inv.
  induction Hks as [|j ks Hj _ IH]; intros st tr Hinv; cbn [fold_left trackLoop];
    [exact Hinv|].
  apply IH. clear IH.
  destruct st as [shapes opDims], tr as [pos touched].
  destruct Hinv as (Hrank & Hlen & Hge & Hfit & Hpos & (pc & Hpc & Hp1) & Hdiv & Hun).
  cbn [fst snd] in *. unfold trackStep. cbn [fst snd].
  destruct (mergeable j opDims shapes) eqn:Hmerge;
    [rewrite flattenStep_merge by trivial
    |rewrite flattenStep_keep by trivial; unfold Inv; cbn [fst snd]; eauto 10].
  destruct (merge_nowrap opDims j Hge Hfit) as (Hmul & Hge' & Hprod'); [lia|].
  destruct (mergedAt_opDims_nth j shapes opDims) as (Hok & Hok1 & Hoj); [lia|].
  assert (pc ∈ shapes) as Hin by (eapply list_elem_of_lookup_2; eauto).
  rewrite Forall_forall in Hrank.
  destruct (Flatten_dimAt pc j) as (Hsk & Hsk1 & Hsj);
    [lia|rewrite (Hrank pc Hin); lia|].
  apply mergeable_Forall in Hmerge. rewrite Forall_forall in Hmerge.
  destruct (Hmerge pc Hin) as [_ Hstatus].
  assert (1 < nth pos opDims 0)%N as Hbig.
  { pose proof (nth_pos opDims pos Hge ltac:(lia)) as H1.
    destruct Hdiv as [c Hc].
    assert (1 <= c)%N by (destruct (N.eq_dec c 0%N) as [->|]; lia).
    rewrite Hc. nia. }
  assert (map (fun s => Flatten s j) shapes !! i = Some (Flatten pc j)) as Hpc'
    by (rewrite list_lookup_fmap, Hpc; reflexivity).
  assert (Forall (fun s => GetNumDims s = dims)
                 (map (fun s => Flatten s j) shapes)) as Hrank'.
  { rewrite Forall_forall. intros s Hs.
    apply list_elem_of_fmap in Hs. destruct Hs as (s0 & -> & Hs0).
    rewrite Flatten_rank. auto. }
  assert (length (snd (mergedAt j (shapes, opDims))) = dims) as Hlen'
    by (unfold mergedAt; simpl; now rewrite !length_insert).
  assert ((product (snd (mergedAt j (shapes, opDims))) < SizeT.modulus)%N)
    as Hfit' by (unfold mergedAt; simpl; lia).
  unfold mergedAt in *. cbn [fst snd] in *. unfold Inv.
  destruct (Nat.eqb_spec pos (j - 1)) as [Heq1|Hne1];
    [|destruct (Nat.eqb_spec pos j) as [Heq|Hne]]; cbn [fst snd].
  - (* the axis moves into axis j *)
    subst pos. repeat split; trivial; try lia; try discriminate.
    + exists (Flatten pc j). split; [exact Hpc'|]. rewrite Hsk.
      destruct Hstatus as [[_ Hb]|[-> ->]]; [|reflexivity].
      rewrite Hp1 in Hb. lia.
    + rewrite Hok, Hmul. now apply N.divide_mul_r.
  - (* axis j-1 is merged into the axis *)
    subst pos. repeat split; trivial; try lia; try discriminate.
    + exists (Flatten pc j). split; [exact Hpc'|]. rewrite Hsk.
      destruct Hstatus as [[Ha _]|[-> ->]]; [|reflexivity].
      rewrite Hp1 in Ha. lia.
    + rewrite Hok, Hmul. now apply N.divide_mul_l.
  - (* the merge is elsewhere *)
    repeat split; trivial.
    + exists (Flatten pc j). split; [exact Hpc'|]. now rewrite Hsj.
    + now rewrite Hoj.
    + now apply Hun.
    + destruct (Hun H) as [<- Hk]. now rewrite Hoj.
Qed.

Lemma runProduct_single (opDims : list N) (x : nat) :
  runProduct opDims x x = nth x opDims 0%N.
Proof.
  unfold runProduct. replace (S x - x) with 1 by lia. simpl. lia.
Qed.

Lemma runProduct_empty (opDims : list N) (x : nat) :
  runProduct opDims (S x) x = 1%N.
Proof. unfold runProduct. now rewrite Nat.sub_diag. Qed.

Lemma runProduct_extend (opDims : list N) (lo hi : nat) :
  lo <= S hi ->
  runProduct opDims lo (S hi)
  = (nth (S hi) opDims 0 * runProduct opDims lo hi)%N.
Proof.
  intros Hlo. unfold runProduct.
  replace (S (S hi) - lo) with (S (S hi - lo)) by lia.
  rewrite seq_S, map_app, product_app. simpl.
  replace (lo + (S hi - lo)) with (S hi) by lia. lia.
Qed.

(** The invariant of the runs: while no [size_t] product wraps, every
    position holds the product of the operation extents of its run, and the
    run at the tracked position contains the declared axis [k]. *)
Lemma runLoop_invariant (dims k : nat) (op0 : list N) (n : nat) :
  let Inv := fun (a : nat) (st : list TensorShape * list N)
                 (tr : nat * bool) (los : list nat) =>
    length (snd st) = dims
    /\ Forall (fun d => 1 <= d)%N (snd st)
    /\ (product (snd st) < SizeT.modulus)%N
    /\ length los = dims
    /\ (forall x, a <= x < dims -> nth x los 0 = x)
    /\ (forall x, x < dims ->
          nth x los 0 <= S x
          /\ nth x (snd st) 0%N = runProduct op0 (nth x los 0) x)
    /\ nth (fst tr) los 0 <= k <= fst tr
    /\ fst tr < dims in
  forall a st tr los,
    1 <= a -> a + n <= dims -> Inv a st tr los ->
    Inv (a + n) (fold_left flattenStep (seq a n) st)
        (trackLoop (seq a n) st tr) (runLoop (seq a n) st los).
Proof.
  intros Inv. induction n as [|n IH]; intros a st tr los Ha Hn Hinv.
  - rewrite Nat.add_0_r. exact Hinv.
  - cbn [seq fold_left trackLoop runLoop].
    replace (a + S n) with (S a + n) by lia.
    apply IH; [lia|lia|]. clear IH.
    destruct st as [shapes opDims], tr as [pos touched].
    destruct Hinv as (Hlen & Hge & Hfit & Hlos & Hfresh & Hrun & Hk & Hpos).
    cbn [fst snd] in *. unfold trackStep, runStep. cbn [fst snd].
    destruct (mergeable a opDims shapes) eqn:Hmerge;
      [rewrite flattenStep_merge by trivial
      |rewrite flattenStep_keep by trivial; unfold Inv; cbn [fst snd];
       repeat split; trivial; try lia; try apply Hrun; trivial;
       intros x Hx; apply Hfresh; lia].
    destruct (merge_nowrap opDims a Hge Hfit) as (Hmul & Hge' & Hprod'); [lia|].
    destruct (mergedAt_opDims_nth a shapes opDims) as (Hok & Hok1 & Hoj); [lia|].
    unfold mergedAt in *. cbn [fst snd] in *.
    assert (nth a (<[a := nth (a - 1) los 0]> (<[a - 1 := a]> los)) 0
            = nth (a - 1) los 0) as Hla
      by (apply nth_insert_eq; rewrite length_insert; lia).
    assert (nth (a - 1) (<[a := nth (a - 1) los 0]> (<[a - 1 := a]> los)) 0 = a)
      as Hla1 by (rewrite nth_insert_ne by lia; apply nth_insert_eq; lia).
    assert (forall x, x <> a -> x <> a - 1 ->
              nth x (<[a := nth (a - 1) los 0]> (<[a - 1 := a]> los)) 0
              = nth x los 0) as Hlx
      by (intros x H1 H2; now rewrite !nth_insert_ne by lia).
    destruct (Hrun (a - 1)) as [Hlo1 Hop1]; [lia|].
    destruct (Hrun a) as [_ Hopa]; [lia|].
    rewrite (Hfresh a) in Hopa by lia. rewrite runProduct_single in Hopa.
    assert (length (<[a := SizeT.mul (nth a opDims 0%N) (nth (a - 1) opDims 0%N)]>
                      (<[a - 1 := 1%N]> opDims)) = dims) as Hlen'
      by now rewrite !length_insert.
    assert (forall x, x < dims ->
              nth x (<[a := nth (a - 1) los 0]> (<[a - 1 := a]> los)) 0 <= S x
              /\ nth x (<[a := SizeT.mul (nth a opDims 0%N) (nth (a - 1) opDims 0%N)]>
                          (<[a - 1 := 1%N]> opDims)) 0%N
                 = runProduct op0
                     (nth x (<[a := nth (a - 1) los 0]> (<[a - 1 := a]> los)) 0) x)
      as Hrun'.
    { intros x Hx.
      destruct (Nat.eq_dec x a) as [->|Hxa];
        [|destruct (Nat.eq_dec x (a - 1)) as [->|Hxa1]].
      - rewrite Hla, Hok, Hmul. split; [lia|].
        rewrite Hopa, Hop1. destruct a as [|a']; [lia|].
        replace (S a' - 1) with a' in * by lia.
        now rewrite runProduct_extend by lia.
      - rewrite Hla1, Hok1. split; [lia|].
        destruct a as [|a']; [lia|].
        replace (S a' - 1) with a' by lia. now rewrite runProduct_empty.
      - rewrite Hlx, Hoj by trivial. now apply Hrun. }
    assert (forall x, S a <= x < dims ->
              nth x (<[a := nth (a - 1) los 0]> (<[a - 1 := a]> los)) 0 = x)
      as Hfresh'.
    { intros x Hx. rewrite Hlx by lia. apply Hfresh. lia. }
    assert (length (<[a := nth (a - 1) los 0]> (<[a - 1 := a]> los)) = dims)
      as Hlos' by now rewrite !length_insert.
    assert (N.lt (product (<[a := SizeT.mul (nth a opDims 0%N) (nth (a - 1) opDims 0%N)]>
                             (<[a - 1 := 1%N]> opDims))) SizeT.modulus) as Hfit'
      by lia.
    unfold Inv. cbn [fst snd].
    destruct (Nat.eqb_spec pos (a - 1)) as [Heq1|Hne1];
      [|destruct (Nat.eqb_spec pos a) as [Heq|Hne]]; cbn [fst snd].
    + subst pos. rewrite Hla.
      refine (conj Hlen' (conj Hge' (conj Hfit' (conj Hlos' (conj Hfresh'
                (conj Hrun' (conj _ _))))))); lia.
    + subst pos. rewrite Hla. rewrite (Hfresh a) in Hk by lia.
      refine (conj Hlen' (conj Hge' (conj Hfit' (conj Hlos' (conj Hfresh'
                (conj Hrun' (conj _ _))))))); lia.
    + rewrite Hlx by trivial.
      refine (conj Hlen' (conj Hge' (conj Hfit' (conj Hlos' (conj Hfresh'
                (conj Hrun' (conj _ _))))))); lia.
Qed.

(** C6 (as amended).  With one stride per axis in every participant's
    shape: each final shape is the shape after singleton removal with the
    same extents, stride 0 at every axis of extent 1, and the stride
    unchanged at every axis of extent greater than 1.  In particular, when
    the compatibility check passes, all extents are at least 1, the product
    of the operation shape is below [2^64] (no [size_t] product wraps), one
    participant declares extent 1 at an axis [k] and another declares
    [m > 1] there: the operation shape before flattening has [opDims[k] = m];
    the axis survives alignment, at the final index [finalAxis ps k]
    (flattening may merge it with adjacent axes and singleton removal may
    renumber it); there the first participant's extent is 1 and its stride
    is 0; and the final [opDims] there is the product of the operation
    extents of the run of adjacent axes merged into it, a run that contains
    [k] -- a multiple of [m], and [m] itself when no merge involved the
    axis. *)
Theorem broadcast_strides (ps : list TensorShape) :
  (forall s, s ∈ ps -> hasStrides s) ->
  (forall i s s',
      fst (dropped ps) !! i = Some s -> fst (aligned ps) !! i = Some s' ->
      s' = WithBroadcastStrides s
      /\ GetDims s' = GetDims s
      /\ forall j, j < GetNumDims s' ->
           (dimAt s' j = 1%N -> strideAt s' j = 0%Z)
           /\ ((1 < dimAt s' j)%N -> strideAt s' j = strideAt s j))
  /\ (compatibility ps = None ->
      (forall s, s ∈ ps -> Forall (fun d => 1 <= d)%N (m_dims s)) ->
      (product (paddedOpDims ps) < SizeT.modulus)%N ->
      forall i p q k m,
        ps !! i = Some p -> q ∈ ps -> k < GetNumDims p -> k < GetNumDims q ->
        dimAt p k = 1%N -> dimAt q k = m -> (1 < m)%N ->
        let j := finalAxis ps k in
        let hi := fst (flattenedAxis ps k) in
        let lo := nth hi (runStarts ps) 0 in
        nth k (paddedOpDims ps) 0%N = m
        /\ j < length (snd (aligned ps))
        /\ (exists p', fst (aligned ps) !! i = Some p'
                       /\ dimAt p' j = 1%N /\ strideAt p' j = 0%Z)
        /\ lo <= k <= hi
        /\ nth j (snd (aligned ps)) 0%N = runProduct (paddedOpDims ps) lo hi
        /\ (m | nth j (snd (aligned ps)) 0)%N
        /\ (snd (flattenedAxis ps k) = false ->
            nth j (snd (aligned ps)) 0%N = m)).
Proof.
  intros Hstr. split.
  - intros i s s' Hs Hs'.
    change (fst (aligned ps)) with (map WithBroadcastStrides (fst (dropped ps))) in Hs'.
    rewrite list_lookup_fmap, Hs in Hs'. simpl in Hs'. injection Hs' as <-.
    split; [reflexivity|]. split; [reflexivity|].
    intros j Hj.
    assert (hasStrides s) as Hstr'.
    { apply (dropped_hasStrides ps); [exact Hstr|].
      eapply list_elem_of_lookup_2; eauto. }
    rewrite WithBroadcastStrides_strideAt by trivial.
    change (dimAt (WithBroadcastStrides s) j) with (dimAt s j).
    destruct (N.eqb_spec (dimAt s j) 1); split; intros; trivial; lia.
  - intros Hc Hpos Hfit i p q k m Hi Hq Hkp Hkq Hp1 Hqm Hm. cbv zeta.
    set (dims := maxNumDims ps).
    assert (p ∈ ps) as Hp by (eapply list_elem_of_lookup_2; eauto).
    assert (k < dims) as Hk by (pose proof (maxNumDims_ge ps p Hp); unfold dims; lia).
    (* the operation extent before flattening *)
    assert (nth k (paddedOpDims ps) 0%N = m) as Hop0.
    { rewrite compatibility_None in Hc.
      assert (Pad q dims ∈ paddedShapes ps) as Hq'
        by (apply list_elem_of_fmap; eauto).
      pose proof (Hc k _ Hk Hq') as Hmatch.
      pose proof (paddedOpDims_ge ps k _ Hk Hq') as Hle.
      rewrite Pad_dimAt_declared in Hmatch, Hle by trivial.
      rewrite Hqm in Hmatch, Hle. unfold Matches in Hmatch.
      destruct (N.eqb_spec m 1), (N.eqb_spec (nth k (paddedOpDims ps) 0%N) 1),
               (N.eqb_spec m (nth k (paddedOpDims ps) 0%N));
        simpl in Hmatch; try discriminate; lia. }
    (* the tracked axis after flattening *)
    assert (Forall (fun x => 1 <= x < dims) (seq 1 (dims - 1))) as Hks.
    { rewrite Forall_forall. intros x Hx. apply elem_of_seq in Hx. lia. }
    pose proof (paddedOpDims_pos ps Hpos) as Hge0.
    pose proof (trackLoop_invariant dims i k m (seq 1 (dims - 1)) Hm Hks
                  (paddedShapes ps, paddedOpDims ps) (k, false)) as Htrack.
    cbn [fst snd] in Htrack.
    destruct Htrack as (Hrank & Hlen & Hge & _ & Hhi & (pf & Hpf & Hpf1) & Hdiv & Hun).
    { split; [rewrite Forall_forall; apply paddedShapes_rank|].
      split; [apply operationShape_length|].
      split; [exact Hge0|]. split; [exact Hfit|]. split; [exact Hk|].
      split.
      { exists (Pad p dims). split.
        - unfold paddedShapes, padAll. now rewrite list_lookup_fmap, Hi.
        - now rewrite Pad_dimAt_declared. }
      split; [rewrite Hop0; apply N.divide_refl|].
      intros _. split; [reflexivity|exact Hop0]. }
    pose proof (runLoop_invariant dims k (paddedOpDims ps) (dims - 1) 1
                  (paddedShapes ps, paddedOpDims ps) (k, false) (seq 0 dims)) as Hruns.
    cbn [fst snd] in Hruns.
    destruct Hruns as (_ & _ & _ & _ & _ & Hrun & Hlohi & _); [lia|lia| |].
    { split; [apply operationShape_length|].
      split; [exact Hge0|]. split; [exact Hfit|].
      split; [apply length_seq|].
      split; [intros x Hx; rewrite seq_nth by lia; lia|].
      split.
      { intros x Hx. rewrite seq_nth by lia. simpl.
        split; [lia|]. now rewrite runProduct_single. }
      split; [rewrite seq_nth by lia; simpl; lia|exact Hk]. }
    change (fold_left flattenStep (seq 1 (dims - 1))
                      (paddedShapes ps, paddedOpDims ps))
      with (flattened ps) in *.
    change (trackLoop (seq 1 (dims - 1)) (paddedShapes ps, paddedOpDims ps)
                      (k, false))
      with (flattenedAxis ps k) in *.
    change (runLoop (seq 1 (dims - 1)) (paddedShapes ps, paddedOpDims ps)
                    (seq 0 dims))
      with (runStarts ps) in *.
    set (hi := fst (flattenedAxis ps k)) in *.
    set (lo := nth hi (runStarts ps) 0) in *.
    set (j := finalAxis ps k).
    destruct (Hrun hi Hhi) as [_ Hprod].
    change (nth hi (runStarts ps) 0) with lo in Hprod.
    rewrite Forall_forall in Hrank.
    assert (pf ∈ fst (flattened ps)) as Hpfin
      by (eapply list_elem_of_lookup_2; eauto).
    (* the axis is not dropped *)
    assert (1 < nth hi (snd (flattened ps)) 0)%N as Hbig.
    { pose proof (nth_pos _ hi Hge ltac:(lia)) as H1.
      destruct Hdiv as [c Hc'].
      assert (1 <= c)%N by (destruct (N.eq_dec c 0%N) as [->|]; lia).
      rewrite Hc'. nia. }
    assert (nth hi (dropMask ps) true = false) as Hflag.
    { rewrite (nth_indep _ true false) by (rewrite dropMask_length; exact Hhi).
      destruct (nth hi (dropMask ps) false) eqn:Hd; [|reflexivity].
      destruct (flattened_attained ps hi Hhi) as (s & Hs & Hatt).
      pose proof (dropMask_flagged ps s hi Hs Hhi Hd). lia. }
    destruct (keptFrom_take (dropMask ps) hi) as [Hj1 Hj2];
      [rewrite dropMask_length; exact Hhi|exact Hflag|].
    change (length (keptFrom 0 (take hi (dropMask ps)))) with j in Hj1, Hj2.
    destruct (aligned_opDims_origin ps) as [Hlen2 Hop2].
    assert (nth j (snd (aligned ps)) 0%N = nth hi (snd (flattened ps)) 0%N) as Hfinal
      by (rewrite Hop2, Hj2 by trivial; reflexivity).
    split; [exact Hop0|]. split; [rewrite Hlen2; exact Hj1|]. split.
    { exists (WithBroadcastStrides (DropSingletonDims pf (dropMask ps))).
      assert (length (m_dims pf) = length (dropMask ps)) as Hlenpf
        by (rewrite dropMask_length; apply (Hrank pf Hpfin)).
      assert (dimAt (DropSingletonDims pf (dropMask ps)) j = 1%N) as Hone.
      { unfold dimAt at 1. simpl. rewrite dropMasked_nth by trivial.
        rewrite Hj2. exact Hpf1. }
      split; [|split].
      - change (fst (aligned ps))
          with (map WithBroadcastStrides
                    (map (fun t => DropSingletonDims t (dropMask ps))
                         (fst (flattened ps)))).
        now rewrite !list_lookup_fmap, Hpf.
      - exact Hone.
      - rewrite WithBroadcastStrides_strideAt.
        + now rewrite Hone.
        + apply (dropped_hasStrides ps); [exact Hstr|].
          unfold dropped. simpl. apply list_elem_of_fmap. eauto.
        + unfold GetNumDims. simpl. now rewrite dropMasked_rank. }
    split; [exact Hlohi|]. split; [rewrite Hfinal; exact Hprod|].
    split; [rewrite Hfinal; exact Hdiv|].
    intros Hunt. rewrite Hfinal. destruct (Hun Hunt) as [Heq Hval].
    fold hi in Heq. rewrite Heq. exact Hval.
Qed.

(** The participants (2,3), (1,1), (2,3): the second declares extent 1 at
    axis 0, where the first declares 2; the two axes are merged, and in the
    one final axis the second participant has extent 1 and stride 0 under
    the operation extent 2 * 3. *)
Lemma broadcast_strides_witness :
  let ps := [TensorShapeOf [2; 3]%N; TensorShapeOf [1; 1]%N;
             TensorShapeOf [2; 3]%N] in
  let j := finalAxis ps 0 in
  let hi := fst (flattenedAxis ps 0) in
  let lo := nth hi (runStarts ps) 0 in
  nth 0 (paddedOpDims ps) 0%N = 2%N
  /\ j < length (snd (aligned ps))
  /\ (exists p', fst (aligned ps) !! 1 = Some p'
                 /\ dimAt p' j = 1%N /\ strideAt p' j = 0%Z)
  /\ lo <= 0 <= hi
  /\ nth j (snd (aligned ps)) 0%N = runProduct (paddedOpDims ps) lo hi
  /\ (2 | nth j (snd (aligned ps)) 0)%N
  /\ (snd (flattenedAxis ps 0) = false -> nth j (snd (aligned ps)) 0%N = 2%N).
Proof.
  intros ps.
  refine (proj2 (broadcast_strides ps _) _ _ _ 1 (TensorShapeOf [1; 1]%N)
                (TensorShapeOf [2; 3]%N) 0 2%N _ _ _ _ _ _ _).
  - intros s Hs. unfold ps in Hs.
    repeat (apply elem_of_cons in Hs; destruct Hs as [->|Hs]; [reflexivity|]).
    now apply elem_of_nil in Hs.
  - reflexivity.
  - intros s Hs. unfold ps in Hs.
    repeat (apply elem_of_cons in Hs; destruct Hs as [->|Hs];
            [simpl; repeat constructor; lia|]).
    now apply elem_of_nil in Hs.
  - reflexivity.
  - reflexivity.
  - constructor.
  - vm_compute. lia.
  - vm_compute. lia.
  - reflexivity.
  - reflexivity.
  - reflexivity.
Defined.

(** C6 as stated fails in two ways.  A merge changes the operation extent:
    for (2,3), (1,1), (2,3) the second participant declares extent 1 at
    axis 0 and the first declares 2, but the two axes are merged and the
    only final axis has [opDims] 6.  And a wrapping [size_t] product can
    remove the axis: the shape (3, 12297829382473034411) is accepted over a
    1 x 1 matrix; against (1,1) its extent 3 at axis 0 is merged into
    [3 * 12297829382473034411 = 2^65 + 1], which wraps to 1, and no axis is
    left in the final shapes. *)
Lemma broadcast_strides_merged :
  (let p := TensorShapeOf [1; 1]%N in
   let q := TensorShapeOf [2; 3]%N in
   let ps := [q; p; q] in
   compatibility ps = None
   /\ dimAt p 0 = 1%N /\ dimAt q 0 = 2%N
   /\ snd (aligned ps) = [6%N]
   /\ forall j, nth j (snd (aligned ps)) 0%N <> 2%N)
  /\ (let p := TensorShapeOf [1; 1]%N in
      let q := TensorShapeOf [3; 12297829382473034411]%N in
      let ps := [p; q; q] in
      TensorView_over (mkMatrix 1 1 1) q = Ret (mkTensorView (mkMatrix 1 1 1) q)
      /\ compatibility ps = None
      /\ dimAt p 0 = 1%N /\ dimAt q 0 = 3%N
      /\ snd (aligned ps) = []
      /\ forall s, s ∈ fst (aligned ps) -> GetNumDims s = 0).
Proof.
  split.
  - repeat split; try (vm_compute; reflexivity).
    intros [|[|j]]; vm_compute; discriminate.
  - repeat split; try (vm_compute; reflexivity).
    intros s Hs. vm_compute in Hs.
    repeat (apply elem_of_cons in Hs; destruct Hs as [->|Hs]; [reflexivity|]).
    now apply elem_of_nil in Hs.
Qed.
